(** * Organization management service: tenant lifecycle, credentials, tokens

    A shallow embedding of the service layer of the repository
    ([core/database.py], [services/organization_service.py],
    [services/admin_service.py], [utils/jwt_handler.py],
    [utils/dependencies.py], [models/organization.py], [core/config.py])
    together with the properties its specification states about it. *)

From Stdlib Require Import ZArith List Bool Ascii String Lia.
From stdpp Require Import base option list strings gmap fin_maps.

Local Open Scope string_scope.

(* ===================================================================== *)
(** * Python strings *)
(* ===================================================================== *)

(** A Python [str] is modelled as a [string] whose characters are the code
    points below 256.  On that range [str.lower] maps A-Z and the Latin-1
    capitals to their small letters, one character for one, and
    [str.strip()] removes the characters for which [str.isspace] holds.
    A name with a code point from 256 on is outside this model: there
    [str.lower] can give an ASCII letter (the Kelvin sign gives k) or two
    code points for one (the dotted capital I), so what is proved of
    [lower] here is proved for the names of code points below 256 only. *)
Module PyStr.

Definition ord (c : ascii) : N := N_of_ascii c.

Definition between (lo hi : N) (c : ascii) : bool :=
  ((lo <=? ord c) && (ord c <=? hi))%N.

(** [str.isspace] on one character: TAB..CR, FS..US, SPACE, NEL, NBSP. *)
Definition isspace (c : ascii) : bool :=
  between 9 13 c || between 28 32 c || (ord c =? 133)%N || (ord c =? 160)%N.

(** [str.lower] on one character. *)
Definition lower_char (c : ascii) : ascii :=
  if between 65 90 c || between 192 214 c || between 216 222 c
  then ascii_of_N (ord c + 32)
  else c.

Fixpoint lower (s : string) : string :=
  match s with
  | EmptyString => EmptyString
  | String c r => String (lower_char c) (lower r)
  end.

Fixpoint all_chars (p : ascii -> bool) (s : string) : bool :=
  match s with
  | EmptyString => true
  | String c r => p c && all_chars p r
  end.

(** [str.lstrip]: drop the longest prefix of characters in the set. *)
Fixpoint lstrip_by (p : ascii -> bool) (s : string) : string :=
  match s with
  | EmptyString => EmptyString
  | String c r => if p c then lstrip_by p r else s
  end.

(** [str.rstrip]: drop the longest suffix of characters in the set. *)
Fixpoint rstrip_by (p : ascii -> bool) (s : string) : string :=
  match s with
  | EmptyString => EmptyString
  | String c r =>
      if p c && all_chars p r then EmptyString else String c (rstrip_by p r)
  end.

Definition strip_by (p : ascii -> bool) (s : string) : string :=
  lstrip_by p (rstrip_by p s).

(** [s.strip()] *)
Definition strip (s : string) : string := strip_by isspace s.

(** [s.strip(chars)] *)
Definition strip_chars (chars : string) (s : string) : string :=
  strip_by (fun c => existsb (Ascii.eqb c) (list_ascii_of_string chars)) s.

(** Truthiness of a [str]: non-empty. *)
Definition truthy (s : string) : bool :=
  match s with EmptyString => false | _ => true end.

(** [a or b] on strings. *)
Definition or_else (a b : string) : string := if truthy a then a else b.

End PyStr.

(* ===================================================================== *)
(** * core/database.py: collection naming *)
(* ===================================================================== *)

(** The character class [[a-zA-Z0-9]] of the pattern in
    [normalize_org_name]. *)
Definition re_alnum (c : ascii) : bool :=
  PyStr.between 97 122 c || PyStr.between 65 90 c || PyStr.between 48 57 c.

(** [re.sub(r"[^a-zA-Z0-9]+", "_", s)]: the scan goes left to right; at a
    character outside the class the greedy [+] takes the whole run and one
    underscore is written for it.  [in_run] tells that the scan is inside a
    run whose underscore has been written. *)
Fixpoint re_sub_runs (in_class : ascii -> bool) (in_run : bool) (s : string)
  : string :=
  match s with
  | EmptyString => EmptyString
  | String c r =>
      if in_class c then String c (re_sub_runs in_class false r)
      else if in_run then re_sub_runs in_class true r
      else String "_" (re_sub_runs in_class true r)
  end.

Definition re_sub_non_alnum (s : string) : string :=
  re_sub_runs re_alnum false s.

Definition normalize_org_name (organization_name : string) : string :=
  let slug := re_sub_non_alnum (PyStr.lower (PyStr.strip organization_name)) in
  PyStr.or_else (PyStr.strip_chars "_" slug) "org".

Definition build_org_collection_name (organization_name : string) : string :=
  "org_" +:+ normalize_org_name organization_name.

(** The key under which the registry stores and looks up an organization:
    [organization_name.lower().strip()]. *)
Definition name_key (organization_name : string) : string :=
  PyStr.strip (PyStr.lower organization_name).

(** ** The naming rule as the specification words it *)

(** The class [[a-z0-9]] of the rule. *)
Definition rule_alnum (c : ascii) : bool :=
  PyStr.between 97 122 c || PyStr.between 48 57 c.

(** The characters the rule replaces, and the one it writes for them. *)
Definition non_alnum (c : ascii) : bool := negb (rule_alnum c).
Definition us : ascii -> bool := Ascii.eqb "_".

(** Every maximal run of characters outside the class becomes one
    underscore: a character outside the class is dropped when the run goes
    on after it, and replaced by the underscore when the run ends with it. *)
Fixpoint collapse_runs (s : string) : string :=
  match s with
  | EmptyString => EmptyString
  | String c r =>
      if rule_alnum c then String c (collapse_runs r)
      else match r with
           | EmptyString => String "_" EmptyString
           | String c' _ =>
               if rule_alnum c' then String "_" (collapse_runs r)
               else collapse_runs r
           end
  end.

Definition rule_prefix : string := "org_".
Definition rule_default_token : string := "org".

(** prefix + lowercase(name) with every maximal run of characters outside
    [[a-z0-9]] replaced by one underscore, then leading and trailing
    underscores trimmed, the default token when nothing is left. *)
Definition slug_rule (name : string) : string :=
  let collapsed := collapse_runs (PyStr.lower name) in
  let trimmed := PyStr.strip_by us collapsed in
  rule_prefix +:+
    (match trimmed with EmptyString => rule_default_token | _ => trimmed end).

(* ===================================================================== *)
(** * core/config.py and models/organization.py *)
(* ===================================================================== *)

Record Settings := {
  mongo_uri : string;
  secret_key : string;
  access_token_expire_minutes : Z;
  jwt_algorithm : string;
  master_db_name : string
}.

Module OrganizationCreate.
Record t := { organization_name : string; email : string; password : string }.
End OrganizationCreate.

Module OrganizationUpdate.
Record t := {
    organization_name : option string;
    email : option string;
    password : option string
  }.
End OrganizationUpdate.

Module OrganizationResponse.
Record t := {
    id : nat;
    organization_name : string;
    email : string;
    collection_name : string;
    created_at : Z;
    updated_at : Z
  }.
End OrganizationResponse.

Module AdminLoginRequest.
Record t := { email : string; password : string }.
End AdminLoginRequest.

(** [constr(min_length=lo, max_length=hi)] *)
Definition constr (lo hi : nat) (s : string) : bool :=
  (lo <=? String.length s)%nat && (String.length s <=? hi)%nat.

Definition valid_organization_name : string -> bool := constr 3 64.
Definition valid_password : string -> bool := constr 8 128.

(** A field of [OrganizationUpdate] counts as given when it is present and
    truthy ([if payload.email:]). *)
Definition given (f : option string) : option string :=
  match f with
  | Some s => if PyStr.truthy s then Some s else None
  | None => None
  end.

(* ===================================================================== *)
(** * The document store *)
(* ===================================================================== *)

(** A document of the [organizations] collection.  Object ids are numbered
    in the order the store hands them out; time stamps are seconds. *)
Module OrgDoc.
Record t := {
    _id : nat;
    name : string;
    name_lower : string;
    email : string;
    password_hash : string;
    collection_name : string;
    created_at : Z;
    updated_at : Z
  }.
End OrgDoc.

(** The [updates] dictionary of [update_organization]: one optional entry
    per key the method can stage. *)
Module Updates.
Definition staged {A} (o : option A) : bool :=
  match o with Some _ => true | None => false end.
Record t := {
    name : option string;
    name_lower : option string;
    collection_name : option string;
    email : option string;
    password_hash : option string;
    updated_at : option Z
  }.
Definition empty : t := Build_t None None None None None None.
  (** [if updates:] *)
Definition nonempty (u : t) : bool :=
    staged (name u) || staged (name_lower u)
    || staged (collection_name u) || staged (email u)
    || staged (password_hash u) || staged (updated_at u).
  (** [{"$set": updates}] on one document, also [org_doc.update(updates)]. *)
Definition set (u : t) (d : OrgDoc.t) : OrgDoc.t :=
    {| OrgDoc._id := OrgDoc._id d;
       OrgDoc.name := default (OrgDoc.name d) (name u);
       OrgDoc.name_lower := default (OrgDoc.name_lower d) (name_lower u);
       OrgDoc.email := default (OrgDoc.email d) (email u);
       OrgDoc.password_hash := default (OrgDoc.password_hash d) (password_hash u);
       OrgDoc.collection_name :=
         default (OrgDoc.collection_name d) (collection_name u);
       OrgDoc.created_at := OrgDoc.created_at d;
       OrgDoc.updated_at := default (OrgDoc.updated_at d) (updated_at u) |}.
(** [updates["name"] = n; updates["name_lower"] = k;
    updates["collection_name"] = c] *)
Definition stage_rename (n k c : string) (u : t) : t :=
  Build_t (Some n) (Some k) (Some c) (email u) (password_hash u) (updated_at u).
(** [updates["email"] = e] *)
Definition stage_email (e : string) (u : t) : t :=
  Build_t (name u) (name_lower u) (collection_name u) (Some e)
    (password_hash u) (updated_at u).
(** [updates["password_hash"] = h] *)
Definition stage_password_hash (h : string) (u : t) : t :=
  Build_t (name u) (name_lower u) (collection_name u) (email u) (Some h)
    (updated_at u).
(** [updates["updated_at"] = now] *)
Definition stage_updated_at (now : Z) (u : t) : t :=
  Build_t (name u) (name_lower u) (collection_name u) (email u)
    (password_hash u) (Some now).
End Updates.

(** Filters used on the [organizations] collection. *)
Inductive OrgFilter :=
| ByNameLower (key : string)
| ByEmail (email : string)
| ById (oid : nat).

Definition matches (q : OrgFilter) (d : OrgDoc.t) : bool :=
  match q with
  | ByNameLower k => String.eqb (OrgDoc.name_lower d) k
  | ByEmail e => String.eqb (OrgDoc.email d) e
  | ById i => Nat.eqb (OrgDoc._id d) i
  end.

(** The calls the services make on the store, in the order they complete. *)
Inductive StoreCall :=
| FindOne (q : OrgFilter)
| InsertOne (oid : nat)
| UpdateOne (oid : nat)
| DeleteOne (oid : nat)
| ListCollectionNames
| CreateCollection (c : string)
| DropCollection (c : string)
| Find (c : string)
| DeleteMany (c : string)
| InsertMany (c : string) (n : nat).

(** Calls on tenant collections, as opposed to the registry. *)
Definition tenant_call (c : StoreCall) : bool :=
  match c with
  | FindOne _ | InsertOne _ | UpdateOne _ | DeleteOne _ => false
  | _ => true
  end.

(** A tenant document is opaque to the services: they only copy it. *)
Definition Document : Type := string.

(** The master database.  [organizations] is the registry collection in
    natural (insertion) order; [tenants] maps the name of every other
    existing collection to its documents.  The registry itself is stored
    under the name "organizations", which no tenant name can take since
    tenant names carry the prefix "org_"; the model keeps the two apart.
    [log] records the completed store calls, oldest first.  [faults] is the
    failure plan of the run: [Some k] lets [k] more store calls complete and
    makes the next one raise, [None] lets every call complete. *)
Record World := {
  organizations : list OrgDoc.t;
  tenants : gmap string (list Document);
  next_id : nat;
  log : list StoreCall;
  faults : option nat
}.

Definition with_organizations (l : list OrgDoc.t) (w : World) : World :=
  {| organizations := l; tenants := tenants w; next_id := next_id w;
     log := log w; faults := faults w |}.

Definition with_tenants (t : gmap string (list Document)) (w : World) : World :=
  {| organizations := organizations w; tenants := t; next_id := next_id w;
     log := log w; faults := faults w |}.

Definition with_next_id (n : nat) (w : World) : World :=
  {| organizations := organizations w; tenants := tenants w; next_id := n;
     log := log w; faults := faults w |}.

(** One more completed call: it is logged and taken off the failure plan. *)
Definition completed (c : StoreCall) (w : World) : World :=
  {| organizations := organizations w; tenants := tenants w;
     next_id := next_id w; log := log w ++ [c];
     faults := Nat.pred <$> faults w |}.

(** ** Exceptions and the monad of service code *)

Inductive Exn :=
| ValueError (msg : string)
| StoreFailure (c : StoreCall)      (* the store call [c] raised *)
| CollectionInvalid (c : string)    (* create_collection on an existing name *)
| InvalidOperation (msg : string).  (* insert_many of no documents *)

Inductive Outcome (A : Type) :=
| Returned (a : A) (w : World)
| Raised (e : Exn) (w : World).
Arguments Returned {A} a w.
Arguments Raised {A} e w.

Definition M (A : Type) : Type := World -> Outcome A.

Definition ret {A} (a : A) : M A := fun w => Returned a w.
Definition raise {A} (e : Exn) : M A := fun w => Raised e w.
Definition bind {A B} (m : M A) (k : A -> M B) : M B :=
  fun w => match m w with
           | Returned a w' => k a w'
           | Raised e w' => Raised e w'
           end.

#[export] Instance M_ret : MRet M := @ret.
#[export] Instance M_bind : MBind M := fun A B k m => bind m k.

(** The world an outcome leaves behind, and its exception if any. *)
Definition final {A} (o : Outcome A) : World :=
  match o with Returned _ w => w | Raised _ w => w end.

Definition raised {A} (o : Outcome A) : option Exn :=
  match o with Returned _ _ => None | Raised e _ => Some e end.

(** A store call: it raises without effect when the failure plan says so,
    and otherwise runs [f] and is logged. *)
Definition store_call {A} (c : StoreCall) (f : World -> A * World) : M A :=
  fun w => match faults w with
           | Some O => Raised (StoreFailure c) w
           | _ => let '(a, w') := f w in Returned a (completed c w')
           end.

(** ** Calls on the registry collection *)

(** [organizations.find_one(filter)]: the first match in natural order. *)
Definition find_one (q : OrgFilter) : M (option OrgDoc.t) :=
  store_call (FindOne q) (fun w => (List.find (matches q) (organizations w), w)).

Definition with_id (i : nat) (d : OrgDoc.t) : OrgDoc.t :=
  {| OrgDoc._id := i; OrgDoc.name := OrgDoc.name d;
     OrgDoc.name_lower := OrgDoc.name_lower d; OrgDoc.email := OrgDoc.email d;
     OrgDoc.password_hash := OrgDoc.password_hash d;
     OrgDoc.collection_name := OrgDoc.collection_name d;
     OrgDoc.created_at := OrgDoc.created_at d;
     OrgDoc.updated_at := OrgDoc.updated_at d |}.

(** [organizations.insert_one(doc)]: the document gets a fresh [_id], which
    is returned as [inserted_id]. *)
Definition insert_one (d : OrgDoc.t) : M nat :=
  fun w =>
    store_call (InsertOne (next_id w))
      (fun w => (next_id w,
                 with_next_id (S (next_id w))
                   (with_organizations
                      (organizations w ++ [with_id (next_id w) d]) w))) w.

(** Apply [f] to the first element that satisfies [p]. *)
Fixpoint update_first {A} (p : A -> bool) (f : A -> A) (l : list A) : list A :=
  match l with
  | [] => []
  | x :: r => if p x then f x :: r else x :: update_first p f r
  end.

(** Remove the first element that satisfies [p]. *)
Fixpoint delete_first {A} (p : A -> bool) (l : list A) : list A :=
  match l with
  | [] => []
  | x :: r => if p x then r else x :: delete_first p r
  end.

(** [organizations.update_one({"_id": oid}, {"$set": updates})] *)
Definition update_one (oid : nat) (u : Updates.t) : M unit :=
  store_call (UpdateOne oid)
    (fun w => (tt, with_organizations
                     (update_first (matches (ById oid)) (Updates.set u)
                        (organizations w)) w)).

(** [organizations.delete_one({"_id": oid})] *)
Definition delete_one (oid : nat) : M unit :=
  store_call (DeleteOne oid)
    (fun w => (tt, with_organizations
                     (delete_first (matches (ById oid)) (organizations w)) w)).

(** ** Calls on tenant collections *)

(** [db.list_collection_names()] *)
Definition list_collection_names : M (list string) :=
  store_call ListCollectionNames (fun w => (elements (dom (tenants w)), w)).

(** [db.create_collection(c)]: raises on a name that exists. *)
Definition create_collection (c : string) : M unit :=
  fun w => match tenants w !! c with
           | Some _ => Raised (CollectionInvalid c) w
           | None =>
               store_call (CreateCollection c)
                 (fun w => (tt, with_tenants (<[c := []]> (tenants w)) w)) w
           end.

(** [db.drop_collection(c)], also [db[c].drop()]: nothing happens on a
    missing name. *)
Definition drop_collection (c : string) : M unit :=
  store_call (DropCollection c)
    (fun w => (tt, with_tenants (delete c (tenants w)) w)).

(** [db[c].find().to_list(length=None)]: a missing collection has no
    documents. *)
Definition find_all (c : string) : M (list Document) :=
  store_call (Find c) (fun w => (default [] (tenants w !! c), w)).

(** [db[c].delete_many({})]: empties the collection, creates nothing. *)
Definition delete_many (c : string) : M unit :=
  store_call (DeleteMany c)
    (fun w => (tt, with_tenants
                     (match tenants w !! c with
                      | Some _ => <[c := []]> (tenants w)
                      | None => tenants w
                      end) w)).

(** [db[c].insert_many(documents)]: raises on an empty list, creates the
    collection when it is missing, appends otherwise. *)
Definition insert_many (c : string) (documents : list Document) : M unit :=
  match documents with
  | [] => raise (InvalidOperation "No operations to execute")
  | _ =>
      store_call (InsertMany c (List.length documents))
        (fun w => (tt, with_tenants
                         (<[c := (default [] (tenants w !! c) ++ documents)%list]>
                            (tenants w)) w))
  end.

(* ===================================================================== *)
(** * services/organization_service.py *)
(* ===================================================================== *)

(** Modelled from the spec: the credential hasher
    [app.utils.security.PasswordHasher], whose source file is missing.
    [hash_password] is a one-way transform that may embed a fresh random
    salt, here its first argument; [verify_password password hash] tells
    whether the password matches and never raises. *)
Class PasswordHasher := {
  hash_password : string -> string -> string;
  verify_password : string -> string -> bool
}.

Definition _serialize_org (org_doc : OrgDoc.t) : OrganizationResponse.t :=
  {| OrganizationResponse.id := OrgDoc._id org_doc;
     OrganizationResponse.organization_name := OrgDoc.name org_doc;
     OrganizationResponse.email := OrgDoc.email org_doc;
     OrganizationResponse.collection_name := OrgDoc.collection_name org_doc;
     OrganizationResponse.created_at := OrgDoc.created_at org_doc;
     OrganizationResponse.updated_at := OrgDoc.updated_at org_doc |}.

Definition _ensure_collection_exists (collection_name : string) : M unit :=
  existing_collections ← list_collection_names;
  if bool_decide (collection_name ∈ existing_collections) then mret tt
  else create_collection collection_name.

Definition _drop_collection (collection_name : string) : M unit :=
  existing_collections ← list_collection_names;
  if bool_decide (collection_name ∈ existing_collections)
  then drop_collection collection_name
  else mret tt.

Definition _migrate_collection (old_collection_name new_collection_name : string)
  : M unit :=
  if String.eqb old_collection_name new_collection_name then mret tt
  else
    _ensure_collection_exists new_collection_name;;
    documents ← find_all old_collection_name;
    match documents with
    | [] => mret tt
    | _ => delete_many new_collection_name;;
           insert_many new_collection_name documents
    end;;
    drop_collection old_collection_name.

Section OrganizationService.
Context `{PasswordHasher}.

(** [now] is the reading of the clock, [salt] the randomness the hasher
    draws. *)
Definition create_organization (now : Z) (salt : string)
    (payload : OrganizationCreate.t) : M OrganizationResponse.t :=
  let normalized_name := name_key (OrganizationCreate.organization_name payload) in
  existing ← find_one (ByNameLower normalized_name);
  match existing with
  | Some _ => raise (ValueError "Organization already exists")
  | None =>
      let collection_name :=
        build_org_collection_name (OrganizationCreate.organization_name payload) in
      _ensure_collection_exists collection_name;;
      let password_hash := hash_password salt (OrganizationCreate.password payload) in
      let org_doc :=
        {| OrgDoc._id := 0;
           OrgDoc.name := OrganizationCreate.organization_name payload;
           OrgDoc.name_lower := normalized_name;
           OrgDoc.email := PyStr.lower (OrganizationCreate.email payload);
           OrgDoc.password_hash := password_hash;
           OrgDoc.collection_name := collection_name;
           OrgDoc.created_at := now;
           OrgDoc.updated_at := now |} in
      inserted_id ← insert_one org_doc;
      mret (_serialize_org (with_id inserted_id org_doc))
  end.

Definition get_organization (organization_name : string)
  : M (option OrganizationResponse.t) :=
  let normalized_name := name_key organization_name in
  org_doc ← find_one (ByNameLower normalized_name);
  mret (_serialize_org <$> org_doc).

Definition get_organization_by_email (email : string) : M (option OrgDoc.t) :=
  find_one (ByEmail (name_key email)).

(** The first block of [update_organization]: the name change, if any. *)
Definition stage_name (normalized_name : string) (new_name : option string)
  : M (Updates.t * option string) :=
  match given new_name with
  | Some n =>
      if negb (String.eqb (name_key n) normalized_name) then
        let new_normalized := name_key n in
        existing ← find_one (ByNameLower new_normalized);
        match existing with
        | Some _ => raise (ValueError "Organization name already exists")
        | None =>
            let new_collection_name := build_org_collection_name n in
            mret (Updates.stage_rename n new_normalized new_collection_name
                    Updates.empty,
                  Some new_collection_name)
        end
      else mret (Updates.empty, None)
  | None => mret (Updates.empty, None)
  end.

Definition update_organization (now : Z) (salt : string)
    (current_org_name : string) (payload : OrganizationUpdate.t)
  : M OrganizationResponse.t :=
  let normalized_name := name_key current_org_name in
  found ← find_one (ByNameLower normalized_name);
  match found with
  | None => raise (ValueError "Organization not found")
  | Some org_doc =>
      let old_collection_name := OrgDoc.collection_name org_doc in
      '(updates, new_collection_name) ←
         stage_name normalized_name (OrganizationUpdate.organization_name payload);
      let updates :=
        match given (OrganizationUpdate.email payload) with
        | Some e => Updates.stage_email (name_key e) updates
        | None => updates
        end in
      let updates :=
        match given (OrganizationUpdate.password payload) with
        | Some p => Updates.stage_password_hash (hash_password salt p) updates
        | None => updates
        end in
      org_doc ←
        (if Updates.nonempty updates then
           let updates := Updates.stage_updated_at now updates in
           update_one (OrgDoc._id org_doc) updates;;
           mret (Updates.set updates org_doc)
         else mret org_doc);
      match new_collection_name with
      | Some c =>
          if PyStr.truthy c && negb (String.eqb c old_collection_name)
          then _migrate_collection old_collection_name c
          else mret tt
      | None => mret tt
      end;;
      mret (_serialize_org org_doc)
  end.

Definition delete_organization (organization_name : string) : M bool :=
  let normalized_name := name_key organization_name in
  found ← find_one (ByNameLower normalized_name);
  match found with
  | None => raise (ValueError "Organization not found")
  | Some org_doc =>
      _drop_collection (OrgDoc.collection_name org_doc);;
      delete_one (OrgDoc._id org_doc);;
      mret true
  end.

End OrganizationService.

(* ===================================================================== *)
(** * utils/jwt_handler.py *)
(* ===================================================================== *)

(** The payload of a token: the registered claims [exp] and [iat] as whole
    seconds, and the string claims of the subject by key. *)
Module JwtPayload.
Record t := {
  exp : option Z;
  iat : option Z;
  claims : gmap string string
}.
End JwtPayload.

(** A compact token string: either it does not parse as a signed token, or
    it carries the algorithm of its header, a payload and a signature. *)
Inductive Token :=
| Malformed (raw : string)
| Jws (alg : string) (payload : JwtPayload.t) (signature : string).

(** The signature primitive of the [jwt] library: algorithm, key and
    payload give the signature. *)
Class Signer := {
  sign : string -> string -> JwtPayload.t -> string
}.

Inductive JwtError :=
| DecodeError
| InvalidAlgorithmError
| InvalidSignatureError
| ExpiredSignatureError
| ImmatureSignatureError.

Module TokenResponse.
Record t := {
  access_token : Token;
  token_type : string;
  admin_email : string;
  organization_name : string
}.
End TokenResponse.

Section Tokens.
Context `{Signer} (settings : Settings).

(** [jwt.encode(payload, key, algorithm)] *)
Definition jwt_encode (payload : JwtPayload.t) (key algorithm : string) : Token :=
  Jws algorithm payload (sign algorithm key payload).

(** The library's check of [iat]: a token issued in the future is refused. *)
Definition validate_iat (now : Z) (payload : JwtPayload.t) : option JwtError :=
  match JwtPayload.iat payload with
  | Some i => if (now <? i)%Z then Some ImmatureSignatureError else None
  | None => None
  end.

(** The library's check of [exp]: the token is refused from the second of
    its expiry on. *)
Definition validate_exp (now : Z) (payload : JwtPayload.t) : option JwtError :=
  match JwtPayload.exp payload with
  | Some e => if (e <=? now)%Z then Some ExpiredSignatureError else None
  | None => None
  end.

(** [jwt.decode(token, key, algorithms=[algorithm])] at clock reading [now]:
    the header's algorithm must be the allowed one, the signature must be
    the one the key gives, and then the registered claims are checked,
    [iat] before [exp]. *)
Definition jwt_decode (now : Z) (token : Token) (key algorithm : string)
  : JwtError + JwtPayload.t :=
  match token with
  | Malformed _ => inl DecodeError
  | Jws alg payload signature =>
      if negb (String.eqb alg algorithm) then inl InvalidAlgorithmError
      else if negb (String.eqb signature (sign alg key payload))
      then inl InvalidSignatureError
      else
        match validate_iat now payload with
        | Some err => inl err
        | None =>
            match validate_exp now payload with
            | Some err => inl err
            | None => inr payload
            end
        end
  end.

(** [JWTHandler.create_access_token]; [now_exp] and [now_iat] are the two
    successive readings of the clock the method takes, in whole seconds.
    The method builds [{"exp": expire, "iat": now, **subject}], so a
    subject with a key [exp] or [iat] would replace the value set here,
    and the sum [now + timedelta(minutes=...)] raises [OverflowError] when
    [datetime] cannot hold it.  The definition covers the other calls: a
    subject without the claim names the token library reads itself (the
    one call of the repository, in [login], passes [admin_email] and
    [organization_name]), which is then kept apart in [claims], and
    instants that [datetime] holds. *)
Definition create_access_token (now_exp now_iat : Z)
    (subject : gmap string string) : Token :=
  let expire_minutes := access_token_expire_minutes settings in
  let expire := (now_exp + 60 * expire_minutes)%Z in
  let payload :=
    {| JwtPayload.exp := Some expire; JwtPayload.iat := Some now_iat;
       JwtPayload.claims := subject |} in
  jwt_encode payload (secret_key settings) (jwt_algorithm settings).

(** [JWTHandler.decode_token] *)
Definition decode_token (now : Z) (token : Token) : JwtError + JwtPayload.t :=
  jwt_decode now token (secret_key settings) (jwt_algorithm settings).

(* --------------------------------------------------------------------- *)
(** ** utils/dependencies.py: the auth gate *)
(* --------------------------------------------------------------------- *)

Record HTTPException := { status_code : nat; detail : string }.

Definition HTTP_401_UNAUTHORIZED : nat := 401.

(** [get_current_admin]; [credentials] is [None] when the request has no
    bearer header, and the token of the header otherwise. *)
Definition get_current_admin (now : Z) (credentials : option Token)
  : HTTPException + JwtPayload.t :=
  match credentials with
  | None => inl {| status_code := HTTP_401_UNAUTHORIZED;
                   detail := "Missing authorization header" |}
  | Some token =>
      match decode_token now token with
      | inl _ => inl {| status_code := HTTP_401_UNAUTHORIZED;
                        detail := "Invalid or expired token" |}
      | inr payload =>
          if bool_decide (JwtPayload.claims payload !! "admin_email" = None)
             || bool_decide (JwtPayload.claims payload !! "organization_name" = None)
          then inl {| status_code := HTTP_401_UNAUTHORIZED;
                      detail := "Token missing required claims (admin_email, organization_name)" |}
          else inr payload
      end
  end.

(* --------------------------------------------------------------------- *)
(** ** services/admin_service.py *)
(* --------------------------------------------------------------------- *)

Context `{PasswordHasher}.

Definition login (now_exp now_iat : Z) (payload : AdminLoginRequest.t)
  : M TokenResponse.t :=
  found ← find_one (ByEmail (name_key (AdminLoginRequest.email payload)));
  match found with
  | None => raise (ValueError "Invalid credentials")
  | Some org_doc =>
      if negb (verify_password (AdminLoginRequest.password payload)
                 (OrgDoc.password_hash org_doc))
      then raise (ValueError "Invalid credentials")
      else
        let claims : gmap string string :=
          <["organization_name" := OrgDoc.name org_doc]>
            (<["admin_email" := OrgDoc.email org_doc]> ∅) in
        let access_token := create_access_token now_exp now_iat claims in
        mret {| TokenResponse.access_token := access_token;
                TokenResponse.token_type := "bearer";
                TokenResponse.admin_email := OrgDoc.email org_doc;
                TokenResponse.organization_name := OrgDoc.name org_doc |}
  end.

(** routes/admin_routes.py, [admin_login]: a [ValueError] of the service
    becomes a 401 response that carries its message; any other exception
    is not caught by the route, which is [None] here. *)
Definition admin_login (now_exp now_iat : Z) (payload : AdminLoginRequest.t)
    (w : World) : option (HTTPException + TokenResponse.t) :=
  match login now_exp now_iat payload w with
  | Returned r _ => Some (inr r)
  | Raised (ValueError msg) _ =>
      Some (inl {| status_code := HTTP_401_UNAUTHORIZED; detail := msg |})
  | Raised _ _ => None
  end.

End Tokens.

(* ===================================================================== *)
(** * routes/org_routes.py *)
(* ===================================================================== *)

(** An exception a route does not catch: one of the service, or the
    [KeyError] of a subscript on the claims dictionary. *)
Inductive RouteError :=
| ServiceError (e : Exn)
| KeyError (key : string).

(** What the framework makes of a route call: the body with the success
    status of the route, the response of a raised [HTTPException], an
    exception that leaves the route, or the 422 response to a request whose
    parameter [loc] fails the validation declared for it, in which case the
    route function does not run. *)
Inductive Response (A : Type) :=
| Ok (status : nat) (body : A)
| HttpError (e : HTTPException)
| Unhandled (e : RouteError)
| Unprocessable (loc : string).
Arguments Ok {A} status body.
Arguments HttpError {A} e.
Arguments Unhandled {A} e.
Arguments Unprocessable {A} loc.

Definition HTTP_201_CREATED : nat := 201.
Definition HTTP_200_OK : nat := 200.
Definition HTTP_204_NO_CONTENT : nat := 204.
Definition HTTP_400_BAD_REQUEST : nat := 400.
Definition HTTP_403_FORBIDDEN : nat := 403.
Definition HTTP_404_NOT_FOUND : nat := 404.

(** The route functions [create_organization], [update_organization],
    [delete_organization] and [get_organization] below are the functions
    as they run once the framework has accepted the request: a body that
    passed the model of the route, a query parameter that passed its
    [Query] declaration.  [credentials] is the bearer header that
    [Depends(get_current_admin)] reads at clock reading [now_auth], before
    the body of the route runs.  The check of the query parameter itself is
    [query_organization_name], and [get_endpoint] and [delete_endpoint] are
    the two routes that declare it as the framework serves them, from the
    raw query parameter on. *)
Module OrgRoutes.
Section Routes.
Context `{Signer} `{PasswordHasher} (settings : Settings).

Definition create_organization (now : Z) (salt : string)
    (payload : OrganizationCreate.t) (w : World)
  : Response OrganizationResponse.t * World :=
  match create_organization now salt payload w with
  | Returned r w' => (Ok HTTP_201_CREATED r, w')
  | Raised (ValueError msg) w' =>
      (HttpError {| status_code := HTTP_400_BAD_REQUEST; detail := msg |}, w')
  | Raised e w' => (Unhandled (ServiceError e), w')
  end.

Definition update_organization (now_auth now : Z) (salt : string)
    (credentials : option Token) (payload : OrganizationUpdate.t) (w : World)
  : Response OrganizationResponse.t * World :=
  match get_current_admin settings now_auth credentials with
  | inl e => (HttpError e, w)
  | inr current_admin =>
      match JwtPayload.claims current_admin !! "organization_name" with
      | None => (Unhandled (KeyError "organization_name"), w)
      | Some current_org_name =>
          match update_organization now salt current_org_name payload w with
          | Returned r w' => (Ok HTTP_200_OK r, w')
          | Raised (ValueError msg) w' =>
              (HttpError {| status_code := HTTP_400_BAD_REQUEST;
                            detail := msg |}, w')
          | Raised e w' => (Unhandled (ServiceError e), w')
          end
      end
  end.

Definition delete_organization (now_auth : Z) (credentials : option Token)
    (organization_name : string) (w : World) : Response unit * World :=
  match get_current_admin settings now_auth credentials with
  | inl e => (HttpError e, w)
  | inr current_admin =>
      match JwtPayload.claims current_admin !! "organization_name" with
      | None => (Unhandled (KeyError "organization_name"), w)
      | Some jwt_org_name =>
          if negb (String.eqb (name_key organization_name)
                     (name_key jwt_org_name))
          then (HttpError {| status_code := HTTP_403_FORBIDDEN;
                             detail := "You can only delete your own organization" |},
                w)
          else
            match
              (org ← get_organization organization_name;
               match org with
               | None => raise (ValueError "Organization not found")
               | Some _ => delete_organization organization_name
               end) w
            with
            | Returned _ w' => (Ok HTTP_204_NO_CONTENT tt, w')
            | Raised (ValueError msg) w' =>
                (HttpError {| status_code := HTTP_404_NOT_FOUND;
                              detail := msg |}, w')
            | Raised e w' => (Unhandled (ServiceError e), w')
            end
      end
  end.

Definition get_organization (organization_name : string) (w : World)
  : Response OrganizationResponse.t * World :=
  match get_organization organization_name w with
  | Returned (Some organization) w' => (Ok HTTP_200_OK organization, w')
  | Returned None w' =>
      (HttpError {| status_code := HTTP_404_NOT_FOUND;
                    detail := "Organization not found" |}, w')
  | Raised e w' => (Unhandled (ServiceError e), w')
  end.

(** [organization_name: str = Query(..., min_length=3, max_length=64)]:
    the parameter is required and its length is checked as it arrives,
    white space included; [query] is [None] when the request has no such
    parameter.  The result is the value the route function receives, or
    [None] when the framework refuses the request. *)
Definition query_organization_name (query : option string) : option string :=
  match query with
  | Some organization_name =>
      if valid_organization_name organization_name
      then Some organization_name else None
  | None => None
  end.

(** [@router.get("/get")] as served: the query parameter is checked, then
    [get_organization] runs. *)
Definition get_endpoint (query : option string) (w : World)
  : Response OrganizationResponse.t * World :=
  match query_organization_name query with
  | None => (Unprocessable "organization_name", w)
  | Some organization_name => get_organization organization_name w
  end.

(** [@router.delete("/delete")] as served: the framework first resolves
    the dependency [get_current_admin], whose [HTTPException] ends the
    request, then checks the query parameter, and then runs
    [delete_organization] with both. *)
Definition delete_endpoint (now_auth : Z) (credentials : option Token)
    (query : option string) (w : World) : Response unit * World :=
  match get_current_admin settings now_auth credentials with
  | inl e => (HttpError e, w)
  | inr _ =>
      match query_organization_name query with
      | None => (Unprocessable "organization_name", w)
      | Some organization_name =>
          delete_organization now_auth credentials organization_name w
      end
  end.

End Routes.
End OrgRoutes.

(* ===================================================================== *)
(** * core/database.py: the connection manager *)
(* ===================================================================== *)

(** The process as the connection manager sees it: the [_client] field of
    the manager, the number of clients constructed so far (a client is
    named by its rank of construction), and the clients closed, latest
    first. *)
Module MongoConnectionManager.

Record t := {
  _client : option nat;
  constructed : nat;
  closed : list nat
}.

(** [MongoConnectionManager()] in a fresh process. *)
Definition init : t := {| _client := None; constructed := 0; closed := [] |}.

Definition get_client (m : t) : nat * t :=
  match _client m with
  | None =>
      (constructed m,
       {| _client := Some (constructed m); constructed := S (constructed m);
          closed := closed m |})
  | Some c => (c, m)
  end.

(** The database handle: the client it goes through and the name of the
    database. *)
Definition get_master_db (settings : Settings) (m : t) : (nat * string) * t :=
  let '(c, m') := get_client m in ((c, master_db_name settings), m').

Definition close (m : t) : t :=
  match _client m with
  | Some c =>
      {| _client := None; constructed := constructed m;
         closed := c :: closed m |}
  | None => m
  end.

(** The calls a process makes on its manager. *)
Inductive op := GetClient | GetMasterDb | Close.

Definition step (settings : Settings) (m : t) (o : op) : t :=
  match o with
  | GetClient => (get_client m).2
  | GetMasterDb => (get_master_db settings m).2
  | Close => close m
  end.

Definition run (settings : Settings) (ops : list op) : t :=
  fold_left (step settings) ops init.

(** The clients that are open: constructed and not closed. *)
Definition open_clients (m : t) : list nat :=
  List.filter (fun c => negb (existsb (Nat.eqb c) (closed m)))
    (seq 0 (constructed m)).

End MongoConnectionManager.

(* ===================================================================== *)
(** * Vocabulary of the properties *)
(* ===================================================================== *)

(** The store keeps [_id] unique within a collection. *)
Definition unique_ids (w : World) : Prop :=
  NoDup (List.map OrgDoc._id (organizations w)).

(** No two live records share a registry key. *)
Definition unique_names (w : World) : Prop :=
  NoDup (List.map OrgDoc.name_lower (organizations w)).

(** The record a lookup by organization name yields. *)
Definition lookup_org (organization_name : string) (w : World) : option OrgDoc.t :=
  List.find (matches (ByNameLower (name_key organization_name))) (organizations w).

(** The record a lookup by admin email yields. *)
Definition lookup_admin (email : string) (w : World) : option OrgDoc.t :=
  List.find (matches (ByEmail (name_key email))) (organizations w).

(** The documents of a tenant collection, none when it does not exist. *)
Definition documents_of (c : string) (w : World) : list Document :=
  default [] (tenants w !! c).

(** The calls completed between two worlds of one run. *)
Definition calls_since (w w' : World) : list StoreCall :=
  drop (List.length (log w)) (log w').

(** Collection [old] of [w] has become collection [new] of [w']. *)
Definition migrated (old new : string) (w w' : World) : Prop :=
  tenants w' !! new = Some (documents_of old w) /\ tenants w' !! old = None.

(** In a sequence of calls, no tenant collection is touched before the
    registry record has been written. *)
Fixpoint persisted_first (l : list StoreCall) : bool :=
  match l with
  | [] => true
  | UpdateOne _ :: _ => true
  | c :: r => negb (tenant_call c) && persisted_first r
  end.

(** A hasher, a signer, settings and worlds to run the services on. *)
Definition demo_hasher : PasswordHasher :=
  {| hash_password := fun salt password => salt +:+ "$" +:+ password;
     verify_password := fun password hash =>
       String.eqb (String.substring
                     (String.length hash - String.length password)
                     (String.length password) hash) password |}.

Definition demo_signer : Signer :=
  {| sign := fun alg key payload =>
       alg +:+ ":" +:+ key +:+ ":"
       +:+ default "" (JwtPayload.claims payload !! "admin_email") |}.

Definition demo_settings : Settings :=
  {| mongo_uri := "mongodb://localhost"; secret_key := "s3cret";
     access_token_expire_minutes := 60; jwt_algorithm := "HS256";
     master_db_name := "org_master" |}.

Definition demo_org (i : nat) (n : string) (e : string) : OrgDoc.t :=
  {| OrgDoc._id := i; OrgDoc.name := n; OrgDoc.name_lower := name_key n;
     OrgDoc.email := e; OrgDoc.password_hash := "salt$password1";
     OrgDoc.collection_name := build_org_collection_name n;
     OrgDoc.created_at := 100; OrgDoc.updated_at := 100 |}.

(** Two organizations, "foo" with two tenant documents and "Bar Ltd" with
    one. *)
Definition demo_world : World :=
  {| organizations := [demo_org 1 "foo" "ann@foo.io";
                       demo_org 2 "Bar Ltd" "bob@bar.io"];
     tenants := <["org_foo" := ["d1"; "d2"]]> (<["org_bar_ltd" := ["e1"]]> ∅);
     next_id := 3; log := []; faults := None |}.

Definition with_faults (k : option nat) (w : World) : World :=
  {| organizations := organizations w; tenants := tenants w;
     next_id := next_id w; log := log w; faults := k |}.

(** What [_ensure_collection_exists] leaves when no call fails. *)
Definition ensured (c : string) (w : World) : World :=
  match tenants w !! c with
  | Some _ => completed ListCollectionNames w
  | None =>
      completed (CreateCollection c)
        (with_tenants (<[c := []]> (tenants w)) (completed ListCollectionNames w))
  end.

(** One organization, "my org", whose collection name is also the slug of
    the name "my-org". *)
Definition same_slug_world : World :=
  {| organizations := [demo_org 1 "my org" "ann@my.org"];
     tenants := <["org_my_org" := ["d1"]]> ∅;
     next_id := 2; log := []; faults := None |}.

(** Organization "foo" with an empty collection, next to organization
    "baz!" whose collection "org_baz" holds a document. *)
Definition taken_slug_world : World :=
  {| organizations := [demo_org 1 "foo" "ann@foo.io";
                       demo_org 2 "baz!" "bob@baz.io"];
     tenants := <["org_foo" := []]> (<["org_baz" := ["e1"]]> ∅);
     next_id := 3; log := []; faults := None |}.

Definition demo_create (n e : string) : OrganizationCreate.t :=
  {| OrganizationCreate.organization_name := n;
     OrganizationCreate.email := e;
     OrganizationCreate.password := "password1" |}.

Definition demo_update (n e p : option string) : OrganizationUpdate.t :=
  {| OrganizationUpdate.organization_name := n;
     OrganizationUpdate.email := e;
     OrganizationUpdate.password := p |}.

Definition demo_login (e p : string) : AdminLoginRequest.t :=
  {| AdminLoginRequest.email := e; AdminLoginRequest.password := p |}.

(** A computation only adds to the log of completed calls. *)
Definition extends {A} (m : M A) : Prop :=
  forall w, exists l, log (final (m w)) = (log w ++ l)%list.

(** The shape of a slug: letters a-z, digits and single underscores, with
    an underscore only between two other characters.  [after_us] tells
    that the previous character was an underscore or that the string
    starts here. *)
Fixpoint slug_shape (after_us : bool) (s : string) : bool :=
  match s with
  | EmptyString => negb after_us
  | String c r =>
      if rule_alnum c then slug_shape false r
      else us c && negb after_us && slug_shape true r
  end.

(** The store hands out ids it has not handed out before. *)
Definition ids_below_next (w : World) : Prop :=
  Forall (fun d => OrgDoc._id d < next_id w) (organizations w).

(** The derived fields of every record follow from its name. *)
Definition derived_fields_ok (w : World) : Prop :=
  Forall (fun d => OrgDoc.name_lower d = name_key (OrgDoc.name d)
                   /\ OrgDoc.collection_name d
                      = build_org_collection_name (OrgDoc.name d))
    (organizations w).

(** The invariant of the registry. *)
Definition registry_ok (w : World) : Prop :=
  unique_ids w /\ unique_names w /\ ids_below_next w /\ derived_fields_ok w.

(** The registry and the tenant collections are as in [w]. *)
Definition same_data (w w' : World) : Prop :=
  organizations w' = organizations w /\ tenants w' = tenants w
  /\ next_id w' = next_id w.

(** A computation leaves the registry alone, whatever call fails. *)
Definition keeps_registry {A} (m : M A) : Prop :=
  forall w, organizations (final (m w)) = organizations w
            /\ next_id (final (m w)) = next_id w.

(** A result of the token checks that is a payload, not an error. *)
Definition accepted {E A} (r : E + A) : bool :=
  match r with inr _ => true | inl _ => false end.

(** A run in which no call fails ends in a world in which none will. *)
Definition keeps_no_faults {A} (m : M A) : Prop :=
  forall w, faults w = None -> faults (final (m w)) = None.

(** The record [create_organization] inserts. *)
Definition created_doc `{PasswordHasher} (now : Z) (salt : string)
    (payload : OrganizationCreate.t) (oid : nat) : OrgDoc.t :=
  {| OrgDoc._id := oid;
     OrgDoc.name := OrganizationCreate.organization_name payload;
     OrgDoc.name_lower := name_key (OrganizationCreate.organization_name payload);
     OrgDoc.email := PyStr.lower (OrganizationCreate.email payload);
     OrgDoc.password_hash :=
       hash_password salt (OrganizationCreate.password payload);
     OrgDoc.collection_name :=
       build_org_collection_name (OrganizationCreate.organization_name payload);
     OrgDoc.created_at := now;
     OrgDoc.updated_at := now |}.

(** The worlds the organization service can get to from an empty registry
    when its calls run one after another: each constructor is one whole
    call of a method, from its first store call to its return or its
    exception, whatever calls fail in it, with any writes of the tenants
    to their collections between two calls.  Two calls whose store calls
    interleave, as two requests served at once can, are not a run of this
    relation. *)
Inductive sequentially_reachable `{PasswordHasher} : World -> Prop :=
| reach_fresh t l k :
    sequentially_reachable {| organizations := []; tenants := t; next_id := 0;
                 log := l; faults := k |}
| reach_create now salt payload w :
    sequentially_reachable w -> sequentially_reachable (final (create_organization now salt payload w))
| reach_get name w :
    sequentially_reachable w -> sequentially_reachable (final (get_organization name w))
| reach_get_by_email email w :
    sequentially_reachable w -> sequentially_reachable (final (get_organization_by_email email w))
| reach_update now salt name payload w :
    sequentially_reachable w ->
    sequentially_reachable (final (update_organization now salt name payload w))
| reach_delete name w :
    sequentially_reachable w -> sequentially_reachable (final (delete_organization name w))
| reach_tenants t w : sequentially_reachable w -> sequentially_reachable (with_tenants t w)
| reach_faults k w : sequentially_reachable w -> sequentially_reachable (with_faults k w).

(** The claim names the token library reads from a payload itself. *)
Definition registered_claims : list string :=
  ["exp"; "iat"; "nbf"; "aud"; "iss"; "sub"; "jti"].

(** A subject that sets none of the registered claims: spread into the
    payload it leaves [exp] and [iat] as [create_access_token] set them and
    gives the library no further claim to check. *)
Definition plain_subject (subject : gmap string string) : Prop :=
  Forall (fun k => subject !! k = None) registered_claims.

(** The instants a [datetime] holds, in whole seconds from the epoch: from
    year 1 to the last second of year 9999. *)
Definition datetime_min : Z := -62135596800.
Definition datetime_max : Z := 253402300799.
Definition in_datetime_range (t : Z) : Prop :=
  (datetime_min <= t <= datetime_max)%Z.

(** The hasher accepts a password against every hash it makes of it. *)
Definition hasher_round_trip `{PasswordHasher} : Prop :=
  forall salt password,
    verify_password password (hash_password salt password) = true.

(* ===================================================================== *)
(** * Properties of the string functions *)
(* ===================================================================== *)

Module PyStrFacts.
Import PyStr.

Ltac by_cases_on_char c :=
  destruct c as [[] [] [] [] [] [] [] []]; vm_compute; congruence.

Lemma isspace_lower_char c : isspace (lower_char c) = isspace c.
Proof. by_cases_on_char c. Qed.

Lemma re_alnum_lower_char c : re_alnum (lower_char c) = rule_alnum (lower_char c).
Proof. by_cases_on_char c. Qed.

Lemma isspace_not_alnum c : isspace c = true -> negb (rule_alnum c) = true.
Proof. by_cases_on_char c. Qed.

Lemma alnum_not_underscore c : rule_alnum c = true -> Ascii.eqb "_" c = false.
Proof. by_cases_on_char c. Qed.

Lemma underscore_set c :
  existsb (Ascii.eqb c) (list_ascii_of_string "_") = Ascii.eqb "_" c.
Proof. cbn. rewrite orb_false_r. apply Ascii.eqb_sym. Qed.

Lemma all_chars_rstrip_empty p s : all_chars p s = true -> rstrip_by p s = "".
Proof. destruct s as [|c r]; cbn; [done|]. by intros ->. Qed.

Lemma all_chars_weaken (p q : ascii -> bool) s :
  (forall c, p c = true -> q c = true) ->
  all_chars p s = true -> all_chars q s = true.
Proof.
  intros Hpq. induction s as [|c r IH]; cbn; [done|].
  intros [Hc Hr]%andb_true_iff. by rewrite (Hpq _ Hc), IH.
Qed.

Lemma rstrip_lstrip_comm p q s :
  rstrip_by q (lstrip_by p s) = lstrip_by p (rstrip_by q s).
Proof.
  induction s as [|c r IH]; cbn; [done|].
  destruct (p c) eqn:Hp.
  - rewrite IH. destruct (q c && all_chars q r) eqn:Hq; cbn.
    + apply andb_true_iff in Hq as [_ Hq].
      by rewrite (all_chars_rstrip_empty q r Hq).
    + by rewrite Hp.
  - cbn. destruct (q c && all_chars q r); cbn; [done|]. by rewrite Hp.
Qed.

Lemma lstrip_absorb (p q : ascii -> bool) s :
  (forall c, p c = true -> q c = true) ->
  lstrip_by q (lstrip_by p s) = lstrip_by q s.
Proof.
  intros Hpq. induction s as [|c r IH]; cbn; [done|].
  destruct (p c) eqn:Hp; [by rewrite (Hpq _ Hp)|done].
Qed.

Lemma all_chars_rstrip (p q : ascii -> bool) s :
  (forall c, p c = true -> q c = true) ->
  all_chars q (rstrip_by p s) = all_chars q s.
Proof.
  intros Hpq. induction s as [|c r IH]; cbn; [done|].
  destruct (p c && all_chars p r) eqn:Hp; cbn.
  - apply andb_true_iff in Hp as [Hc Hr].
    by rewrite (Hpq _ Hc), (all_chars_weaken p q r Hpq Hr).
  - by rewrite IH.
Qed.

Lemma rstrip_absorb (p q : ascii -> bool) s :
  (forall c, p c = true -> q c = true) ->
  rstrip_by q (rstrip_by p s) = rstrip_by q s.
Proof.
  intros Hpq. induction s as [|c r IH]; cbn; [done|].
  destruct (p c && all_chars p r) eqn:Hp; cbn.
  - apply andb_true_iff in Hp as [Hc Hr].
    by rewrite (Hpq _ Hc), (all_chars_weaken p q r Hpq Hr).
  - by rewrite (all_chars_rstrip p q r Hpq), IH.
Qed.

Lemma strip_absorb (p q : ascii -> bool) s :
  (forall c, p c = true -> q c = true) ->
  strip_by q (strip_by p s) = strip_by q s.
Proof.
  intros Hpq. unfold strip_by.
  by rewrite rstrip_lstrip_comm, lstrip_absorb, rstrip_absorb.
Qed.

Lemma all_chars_ext (p q : ascii -> bool) s :
  (forall c, p c = q c) -> all_chars p s = all_chars q s.
Proof. intros E. induction s as [|c r IH]; cbn; [done|]. by rewrite E, IH. Qed.

Lemma strip_by_ext (p q : ascii -> bool) s :
  (forall c, p c = q c) -> strip_by p s = strip_by q s.
Proof.
  intros E. unfold strip_by.
  assert (R : forall t, rstrip_by p t = rstrip_by q t).
  { induction t as [|c r IH]; cbn; [done|].
    by rewrite E, (all_chars_ext p q r E), IH. }
  rewrite R. generalize (rstrip_by q s). intros t.
  induction t as [|c r IH]; cbn; [done|]. by rewrite E, IH.
Qed.

(** Lowering and stripping white space commute. *)
Lemma all_space_lower s : all_chars isspace (lower s) = all_chars isspace s.
Proof.
  induction s as [|c r IH]; cbn; [done|]. by rewrite isspace_lower_char, IH.
Qed.

Lemma lower_strip s : lower (strip s) = strip (lower s).
Proof.
  unfold strip, strip_by.
  assert (R : forall t, lower (rstrip_by isspace t) = rstrip_by isspace (lower t)).
  { induction t as [|c r IH]; cbn; [done|].
    rewrite isspace_lower_char, all_space_lower.
    destruct (isspace c && all_chars isspace r); cbn; [done|]. by rewrite IH. }
  rewrite <- R. generalize (rstrip_by isspace s). intros t.
  induction t as [|c r IH]; cbn; [done|].
  rewrite isspace_lower_char. by destruct (isspace c).
Qed.

(** ** Runs and underscores *)

#[local] Arguments us : simpl never.
#[local] Arguments non_alnum : simpl never.

Lemma alnum_not_us c : rule_alnum c = true -> us c = false.
Proof. apply alnum_not_underscore. Qed.

Lemma non_alnum_false c : rule_alnum c = true -> non_alnum c = false.
Proof. unfold non_alnum. by intros ->. Qed.

Lemma non_alnum_true c : rule_alnum c = false -> non_alnum c = true.
Proof. unfold non_alnum. by intros ->. Qed.

Lemma re_sub_lower b s :
  re_sub_runs re_alnum b (lower s) = re_sub_runs rule_alnum b (lower s).
Proof.
  revert b. induction s as [|c r IH]; intros b; cbn; [done|].
  rewrite re_alnum_lower_char, !IH. done.
Qed.

Lemma all_us_re_sub b s :
  all_chars us (re_sub_runs rule_alnum b s) = all_chars non_alnum s.
Proof.
  revert b. induction s as [|c r IH]; intros b; cbn; [done|].
  destruct (rule_alnum c) eqn:Hc; cbn.
  - by rewrite (alnum_not_us c Hc), (non_alnum_false c Hc).
  - rewrite (non_alnum_true c Hc). destruct b; cbn; by rewrite IH.
Qed.

Lemma lstrip_re_sub b s :
  lstrip_by us (re_sub_runs rule_alnum b s)
  = re_sub_runs rule_alnum false (lstrip_by non_alnum s).
Proof.
  revert b. induction s as [|c r IH]; intros b; cbn; [done|].
  destruct (rule_alnum c) eqn:Hc; cbn.
  - rewrite (alnum_not_us c Hc), (non_alnum_false c Hc). cbn. by rewrite Hc.
  - rewrite (non_alnum_true c Hc). destruct b; cbn; by rewrite IH.
Qed.

Lemma rstrip_re_sub b s :
  rstrip_by us (re_sub_runs rule_alnum b s)
  = re_sub_runs rule_alnum b (rstrip_by non_alnum s).
Proof.
  revert b. induction s as [|c r IH]; intros b; cbn; [done|].
  destruct (rule_alnum c) eqn:Hc; cbn.
  - rewrite (alnum_not_us c Hc), (non_alnum_false c Hc). cbn. by rewrite Hc, IH.
  - rewrite (non_alnum_true c Hc). cbn. destruct b; cbn.
    + rewrite IH. destruct (all_chars non_alnum r) eqn:Hr; cbn.
      * by rewrite (all_chars_rstrip_empty _ _ Hr).
      * by rewrite Hc.
    + rewrite all_us_re_sub.
      destruct (all_chars non_alnum r); cbn; [done|]. by rewrite Hc, IH.
Qed.

(** The rule's way of collapsing runs is the scan of the substitution. *)
Lemma collapse_runs_scan s :
  collapse_runs s = re_sub_runs rule_alnum false s
  /\ forall c, rule_alnum c = false ->
       collapse_runs (String c s) = String "_" (re_sub_runs rule_alnum true s).
Proof.
  induction s as [|d r [IH1 IH2]].
  - split; [done|]. intros c Hc. cbn. by rewrite Hc.
  - assert (E : collapse_runs (String d r)
                = re_sub_runs rule_alnum false (String d r)).
    { destruct (rule_alnum d) eqn:Hd.
      - cbn. by rewrite Hd, IH1.
      - rewrite (IH2 d Hd). cbn. by rewrite Hd. }
    split; [exact E|]. intros c Hc.
    change (collapse_runs (String c (String d r)))
      with (if rule_alnum c then String c (collapse_runs (String d r))
            else if rule_alnum d then String "_" (collapse_runs (String d r))
                 else collapse_runs (String d r)).
    rewrite Hc. destruct (rule_alnum d) eqn:Hd.
    + rewrite E. cbn. by rewrite Hd.
    + rewrite (IH2 d Hd). cbn. by rewrite Hd.
Qed.

Lemma strip_re_sub s :
  strip_by us (re_sub_runs rule_alnum false s)
  = re_sub_runs rule_alnum false (strip_by non_alnum s).
Proof. unfold strip_by. by rewrite rstrip_re_sub, lstrip_re_sub. Qed.

End PyStrFacts.

(* ===================================================================== *)
(** * The collection-naming rule *)
(* ===================================================================== *)

Section Naming.
Import PyStr PyStrFacts.

(** The slug depends on the name only through its registry key. *)
Lemma normalize_org_name_by_key name :
  normalize_org_name name
  = or_else (strip_chars "_" (re_sub_non_alnum (name_key name))) "org".
Proof. unfold normalize_org_name, name_key. by rewrite lower_strip. Qed.

Lemma trimmed_slug_is_rule name :
  strip_chars "_" (re_sub_non_alnum (lower (strip name)))
  = strip_by us (collapse_runs (lower name)).
Proof.
  unfold strip_chars, re_sub_non_alnum.
  rewrite (proj1 (collapse_runs_scan (lower name))).
  rewrite (strip_by_ext _ us) by apply underscore_set.
  rewrite re_sub_lower, lower_strip, !strip_re_sub. f_equal.
  apply strip_absorb, isspace_not_alnum.
Qed.

Lemma build_is_rule name : build_org_collection_name name = slug_rule name.
Proof.
  unfold build_org_collection_name, normalize_org_name, slug_rule, rule_prefix.
  rewrite trimmed_slug_is_rule. unfold or_else, rule_default_token.
  by destruct (strip_by us _).
Qed.

Lemma build_by_key a b :
  name_key a = name_key b ->
  build_org_collection_name a = build_org_collection_name b.
Proof.
  intros E. unfold build_org_collection_name.
  by rewrite !normalize_org_name_by_key, E.
Qed.

(** No tenant collection takes the name of the registry collection. *)
Lemma build_org_collection_name_not_registry name :
  build_org_collection_name name <> "organizations".
Proof. unfold build_org_collection_name. cbn. intros E. by injection E. Qed.

(** C4.  The collection name the code builds is the one the naming rule
    gives: the prefix "org_", then the lowercased name with each maximal run
    of characters outside [a-z0-9] turned into one underscore, underscores
    trimmed at both ends, and the token "org" when nothing is left.  Names
    with the same lowercased, trimmed form get the same collection name,
    " My Org! " and "my-org" both give "org_my_org", and "Acme, Inc." gives
    "org_acme_inc". *)
Theorem collection_name_follows_rule :
  (forall name, build_org_collection_name name = slug_rule name)
  /\ (forall a b, name_key a = name_key b ->
        build_org_collection_name a = build_org_collection_name b)
  /\ build_org_collection_name " My Org! " = "org_my_org"
  /\ build_org_collection_name "my-org" = "org_my_org"
  /\ build_org_collection_name "Acme, Inc." = "org_acme_inc".
Proof.
  split; [exact build_is_rule|].
  split; [exact build_by_key|].
  repeat split; reflexivity.
Qed.

End Naming.

(* ===================================================================== *)
(** * Running service code *)
(* ===================================================================== *)

Lemma store_call_completes {A} (c : StoreCall) (f : World -> A * World) w :
  faults w <> Some 0 ->
  store_call c f w = Returned (f w).1 (completed c (f w).2).
Proof.
  intros Hf. unfold store_call.
  destruct (faults w) as [[|k]|]; [done| |]; by destruct (f w).
Qed.

Lemma store_call_fails {A} (c : StoreCall) (f : World -> A * World) w :
  faults w = Some 0 -> store_call c f w = Raised (StoreFailure c) w.
Proof. intros Hf. unfold store_call. by rewrite Hf. Qed.

Lemma find_one_completes q w :
  faults w <> Some 0 ->
  find_one q w
  = Returned (List.find (matches q) (organizations w)) (completed (FindOne q) w).
Proof. intros Hf. unfold find_one. by rewrite store_call_completes. Qed.

Lemma find_some_match q l (r : OrgDoc.t) :
  In r l -> matches q r = true -> exists r', List.find (matches q) l = Some r'.
Proof.
  intros Hin Hm. destruct (List.find (matches q) l) as [r'|] eqn:E; [eauto|].
  by rewrite (find_none _ _ E r Hin) in Hm.
Qed.

Lemma matches_name_lower k r :
  matches (ByNameLower k) r = true <-> OrgDoc.name_lower r = k.
Proof. cbn. apply String.eqb_eq. Qed.

Lemma in_collection_names c w :
  bool_decide (c ∈ elements (dom (tenants w)))
  = bool_decide (is_Some (tenants w !! c)).
Proof. apply bool_decide_ext. by rewrite elem_of_elements, elem_of_dom. Qed.

Lemma ensure_collection_exists_runs c w :
  faults w = None -> _ensure_collection_exists c w = Returned tt (ensured c w).
Proof.
  intros Hf. unfold _ensure_collection_exists, mbind, M_bind, bind, ensured.
  unfold list_collection_names.
  rewrite store_call_completes by (by rewrite Hf). cbn [fst snd].
  rewrite in_collection_names.
  destruct (tenants w !! c) as [docs|] eqn:E.
  - rewrite bool_decide_true by eauto. done.
  - rewrite bool_decide_false by (by intros [? ?]).
    unfold create_collection. cbn. rewrite E.
    rewrite store_call_completes by (cbn; by rewrite Hf). done.
Qed.

Lemma ensured_frame c w :
  organizations (ensured c w) = organizations w
  /\ next_id (ensured c w) = next_id w
  /\ (faults w = None -> faults (ensured c w) = None).
Proof.
  unfold ensured. destruct (tenants w !! c); cbn; repeat split; by intros ->.
Qed.

Lemma find_app_fresh {A} (p : A -> bool) l x :
  List.find p l = None -> List.find p (l ++ [x]) = if p x then Some x else None.
Proof.
  induction l as [|y l IH]; cbn; [done|]. destruct (p y); [done|]. apply IH.
Qed.

(** ** The log only grows *)

Lemma extends_ret {A} (a : A) : extends (mret a).
Proof. intros w. exists []. cbn. by rewrite app_nil_r. Qed.

Lemma extends_raise {A} e : extends (raise (A := A) e).
Proof. intros w. exists []. cbn. by rewrite app_nil_r. Qed.

Lemma extends_bind {A B} (m : M A) (k : A -> M B) :
  extends m -> (forall a, extends (k a)) -> extends (m ≫= k).
Proof.
  intros Hm Hk w. unfold mbind, M_bind, bind.
  destruct (Hm w) as [l Hl]. destruct (m w) as [a w1|e w1]; cbn in Hl.
  - destruct (Hk a w1) as [l' Hl']. exists (l ++ l')%list.
    by rewrite Hl', Hl, app_assoc.
  - by exists l.
Qed.

Lemma extends_store_call {A} c (f : World -> A * World) :
  (forall w, log (f w).2 = log w) -> extends (store_call c f).
Proof.
  intros Hlog w. unfold store_call.
  destruct (faults w) as [[|k]|]; [exists []; cbn; by rewrite app_nil_r|..].
  all: specialize (Hlog w); destruct (f w) as [a w1]; cbn in *.
  all: exists [c]; by rewrite Hlog.
Qed.

Lemma extends_ensure c : extends (_ensure_collection_exists c).
Proof.
  apply extends_bind; [by apply extends_store_call|]. intros names.
  case_bool_decide; [apply extends_ret|]. intros w. unfold create_collection.
  destruct (tenants w !! c); [apply (extends_raise (A := unit))|].
  by apply extends_store_call.
Qed.

Lemma extends_migrate old new : extends (_migrate_collection old new).
Proof.
  unfold _migrate_collection. destruct (String.eqb old new); [apply extends_ret|].
  apply extends_bind; [apply extends_ensure|]. intros _.
  apply extends_bind; [by apply extends_store_call|]. intros docs.
  apply extends_bind; [|intros _; by apply extends_store_call].
  destruct docs as [|x docs]; [apply extends_ret|].
  apply extends_bind; [|intros _; by apply extends_store_call].
  apply extends_store_call. intros w. cbn. by destruct (tenants w !! new).
Qed.

(* ===================================================================== *)
(** * create *)
(* ===================================================================== *)

Section Create.
Context `{PasswordHasher}.

(** C3.  When the registry holds a record whose key is the lowercased,
    trimmed form of the requested name, [create_organization] raises
    "Organization already exists" right after the lookup: the registry and
    the tenant collections are as before, no id is used up, and the lookup
    is the only store call made. *)
Theorem create_existing_name_rejected now salt payload w r :
  In r (organizations w) ->
  OrgDoc.name_lower r = name_key (OrganizationCreate.organization_name payload) ->
  faults w <> Some 0 ->
  exists w',
    create_organization now salt payload w
    = Raised (ValueError "Organization already exists") w'
    /\ organizations w' = organizations w
    /\ tenants w' = tenants w
    /\ next_id w' = next_id w
    /\ log w' = (log w ++
                 [FindOne (ByNameLower
                    (name_key (OrganizationCreate.organization_name payload)))])%list.
Proof.
  intros Hin Hkey Hf.
  destruct (find_some_match (ByNameLower (name_key
              (OrganizationCreate.organization_name payload))) _ r Hin)
    as [r' Hr']; [by apply matches_name_lower|].
  eexists. split.
  - unfold create_organization, mbind, M_bind, bind.
    rewrite find_one_completes by done. rewrite Hr'. reflexivity.
  - done.
Qed.

(** C5, as the code has it.  When no call fails and no record has the
    key of the requested name, [create_organization] returns a response and
    [get_organization] on the same name returns that very response right
    after: its name is the name given, its collection name is the slug
    function of that name, and its email is the given email in lower case. *)
Theorem create_then_get now salt payload w :
  faults w = None ->
  lookup_org (OrganizationCreate.organization_name payload) w = None ->
  exists r w1 w2,
    create_organization now salt payload w = Returned r w1
    /\ get_organization (OrganizationCreate.organization_name payload) w1
       = Returned (Some r) w2
    /\ OrganizationResponse.organization_name r
       = OrganizationCreate.organization_name payload
    /\ OrganizationResponse.email r
       = PyStr.lower (OrganizationCreate.email payload)
    /\ OrganizationResponse.collection_name r
       = build_org_collection_name (OrganizationCreate.organization_name payload).
Proof.
  intros Hf Hfresh. unfold lookup_org in Hfresh.
  destruct (ensured_frame
              (build_org_collection_name
                 (OrganizationCreate.organization_name payload))
              (completed (FindOne (ByNameLower (name_key
                 (OrganizationCreate.organization_name payload)))) w))
    as (Ho & Hn & Hfe).
  do 3 eexists. split; [|split].
  - unfold create_organization, mbind, M_bind, bind.
    rewrite find_one_completes by (by rewrite Hf). rewrite Hfresh.
    rewrite ensure_collection_exists_runs by (cbn; by rewrite Hf).
    unfold insert_one.
    rewrite store_call_completes by (rewrite Hfe; [done|cbn; by rewrite Hf]).
    cbn [fst snd]. reflexivity.
  - unfold get_organization, mbind, M_bind, bind.
    rewrite find_one_completes
      by (cbn; rewrite Hfe; [done|cbn; by rewrite Hf]).
    cbn [organizations completed with_next_id with_organizations].
    rewrite Ho. cbn [organizations completed].
    rewrite (find_app_fresh _ _ _ Hfresh).
    cbn [matches with_id OrgDoc.name_lower]. rewrite String.eqb_refl.
    cbn. rewrite Hn. reflexivity.
  - done.
Qed.

End Create.

(* ===================================================================== *)
(** * update *)
(* ===================================================================== *)

Lemma NoDup_map_inj {A B} (f : A -> B) (l : list A) a b :
  NoDup (List.map f l) -> In a l -> In b l -> f a = f b -> a = b.
Proof.
  induction l as [|x l IH]; cbn; [done|].
  intros [Hx Hl]%NoDup_cons [<-|Ha] [<-|Hb] E; [done| | |by apply IH].
  - destruct Hx. rewrite E. apply list_elem_of_In, in_map, Hb.
  - destruct Hx. rewrite <- E. apply list_elem_of_In, in_map, Ha.
Qed.

Lemma lookup_org_found name w d :
  lookup_org name w = Some d ->
  In d (organizations w) /\ OrgDoc.name_lower d = name_key name.
Proof.
  intros [Hin Hm]%find_some. split; [done|]. by apply matches_name_lower.
Qed.

Lemma valid_name_given n :
  valid_organization_name n = true -> given (Some n) = Some n.
Proof. by destruct n. Qed.

Lemma find_update_first (p : OrgDoc.t -> bool) f l d :
  NoDup (List.map OrgDoc._id l) ->
  List.find p l = Some d ->
  p (f d) = true ->
  List.find p (update_first (matches (ById (OrgDoc._id d))) f l) = Some (f d).
Proof.
  induction l as [|x l IH]; cbn; [done|].
  intros [Hx Hl]%NoDup_cons Hfind Hp. destruct (p x) eqn:Hpx.
  - injection Hfind as ->. rewrite Nat.eqb_refl. cbn. by rewrite Hp.
  - destruct (Nat.eqb_spec (OrgDoc._id x) (OrgDoc._id d)) as [E|_].
    + destruct Hx. rewrite E. apply find_some in Hfind as [Hin _].
      apply list_elem_of_In, in_map, Hin.
    + cbn. rewrite Hpx. by apply IH.
Qed.

Lemma calls_since_app w w' l :
  log w' = (log w ++ l)%list -> calls_since w w' = l.
Proof. intros E. unfold calls_since. rewrite E. apply drop_app_length. Qed.

Lemma ensured_lookup c w :
  tenants (ensured c w) !! c = Some (documents_of c w)
  /\ (forall c', c' <> c -> tenants (ensured c w) !! c' = tenants w !! c')
  /\ exists l, log (ensured c w) = (log w ++ l)%list
              /\ forallb tenant_call l = true.
Proof.
  unfold ensured, documents_of.
  destruct (tenants w !! c) as [e|] eqn:E; cbn; repeat split.
  - exact E.
  - by exists [ListCollectionNames].
  - by rewrite lookup_insert_eq.
  - intros c' Hc'. by rewrite lookup_insert_ne.
  - exists [ListCollectionNames; CreateCollection c].
    by rewrite <- app_assoc.
Qed.

(** What a migration does when no call fails. *)
Lemma migrate_collection_runs old new w :
  faults w = None ->
  old <> new ->
  documents_of old w <> [] \/ documents_of new w = [] ->
  exists w' l,
    _migrate_collection old new w = Returned tt w'
    /\ migrated old new w w'
    /\ organizations w' = organizations w
    /\ (forall c, c <> old -> c <> new -> tenants w' !! c = tenants w !! c)
    /\ log w' = (log w ++ l)%list
    /\ forallb tenant_call l = true.
Proof.
  intros Hf Hne Hdocs. unfold _migrate_collection, mbind, M_bind, bind.
  apply String.eqb_neq in Hne as Hneb. rewrite Hneb.
  rewrite ensure_collection_exists_runs by done.
  destruct (ensured_frame new w) as (Ho & _ & Hfe). specialize (Hfe Hf).
  destruct (ensured_lookup new w) as (Enew & Eother & l0 & Hl0 & Ht0).
  pose proof (Eother old Hne) as Eold.
  unfold find_all. rewrite store_call_completes by (by rewrite Hfe).
  cbn [fst snd]. rewrite Eold. unfold migrated.
  destruct (documents_of old w) as [|x docs] eqn:Edocs;
    unfold documents_of in Edocs; rewrite Edocs.
  - (* nothing to copy: the destination is left as it is *)
    destruct Hdocs as [Hdocs|Hdocs]; [done|]. rewrite Hdocs in Enew.
    unfold mret, M_ret, ret, drop_collection.
    rewrite store_call_completes by (cbn; by rewrite Hfe).
    exists (completed (DropCollection old)
              (with_tenants (delete old (tenants (ensured new w)))
                 (completed (Find old) (ensured new w)))),
           (l0 ++ [Find old; DropCollection old])%list.
    cbn. repeat split.
    + by rewrite lookup_delete_ne.
    + by rewrite lookup_delete_eq.
    + done.
    + intros c Hco Hcn. by rewrite lookup_delete_ne, Eother.
    + rewrite Hl0, <- !app_assoc. done.
    + rewrite forallb_app, Ht0. done.
  - (* the destination is emptied and filled, then the source is dropped *)
    unfold delete_many, insert_many, drop_collection.
    rewrite store_call_completes by (cbn; by rewrite Hfe). cbn [fst snd].
    rewrite store_call_completes by (cbn; by rewrite Hfe). cbn [fst snd].
    rewrite store_call_completes by (cbn; by rewrite Hfe). cbn [fst snd].
    eexists _, (l0 ++ [Find old; DeleteMany new;
                       InsertMany new (List.length (x :: docs));
                       DropCollection old])%list.
    split; [reflexivity|]. cbn. rewrite Enew. repeat split.
    + rewrite lookup_delete_ne, lookup_insert_eq by done.
      by rewrite lookup_insert_eq.
    + by rewrite lookup_delete_eq.
    + done.
    + intros c Hco Hcn. by rewrite lookup_delete_ne, !lookup_insert_ne, Eother.
    + rewrite Hl0, <- !app_assoc. done.
    + rewrite forallb_app, Ht0. done.
Qed.

Section Update.
Context `{PasswordHasher}.

Lemma stage_name_unchanged k new_name w :
  (forall n, given new_name = Some n -> name_key n = k) ->
  stage_name k new_name w = Returned (Updates.empty, None) w.
Proof.
  intros Hsame. unfold stage_name.
  destruct (given new_name) as [n|]; [|done].
  by rewrite (Hsame n eq_refl), String.eqb_refl.
Qed.

(** C6.  When the request stages nothing (no truthy name whose key differs
    from the current one, no truthy email, no truthy password),
    [update_organization] returns the serialized current record and the
    lookup is its only store call: the registry, including the record's
    [updated_at], and the tenant collections are as before. *)
Theorem update_without_changes now salt current_org_name payload w d :
  faults w <> Some 0 ->
  lookup_org current_org_name w = Some d ->
  (forall n, given (OrganizationUpdate.organization_name payload) = Some n ->
             name_key n = name_key current_org_name) ->
  given (OrganizationUpdate.email payload) = None ->
  given (OrganizationUpdate.password payload) = None ->
  exists w',
    update_organization now salt current_org_name payload w
    = Returned (_serialize_org d) w'
    /\ organizations w' = organizations w
    /\ tenants w' = tenants w
    /\ lookup_org current_org_name w' = Some d
    /\ log w' = (log w ++ [FindOne (ByNameLower (name_key current_org_name))])%list.
Proof.
  intros Hf Hd Hname Hemail Hpw. eexists. split.
  - unfold update_organization, mbind, M_bind, bind.
    rewrite find_one_completes by done. unfold lookup_org in Hd. rewrite Hd.
    rewrite stage_name_unchanged by done. rewrite Hemail, Hpw. reflexivity.
  - done.
Qed.

(** C2.  In a registry with unique keys, renaming organization A to a
    valid name whose key is the key of another record B makes
    [update_organization] raise "Organization name already exists" after its
    two lookups: the registry and the tenant collections are as before, so
    A's record and A's tenant collection are untouched. *)
Theorem update_to_taken_name_rejected now salt current_org_name payload w a b n :
  faults w = None ->
  unique_names w ->
  lookup_org current_org_name w = Some a ->
  In b (organizations w) -> b <> a ->
  OrganizationUpdate.organization_name payload = Some n ->
  valid_organization_name n = true ->
  OrgDoc.name_lower b = name_key n ->
  exists w',
    update_organization now salt current_org_name payload w
    = Raised (ValueError "Organization name already exists") w'
    /\ organizations w' = organizations w
    /\ tenants w' = tenants w
    /\ lookup_org current_org_name w' = Some a
    /\ tenants w' !! OrgDoc.collection_name a
       = tenants w !! OrgDoc.collection_name a
    /\ forallb (fun c => negb (tenant_call c)) (calls_since w w') = true.
Proof.
  intros Hf Huniq Ha Hb Hne Hn Hvalid Hkey.
  destruct (lookup_org_found _ _ _ Ha) as [Hina Hka].
  assert (Hdiff : name_key n <> name_key current_org_name).
  { intros E. apply Hne.
    apply (NoDup_map_inj OrgDoc.name_lower (organizations w)); [done..|].
    congruence. }
  destruct (find_some_match (ByNameLower (name_key n)) _ b Hb) as [b' Hb'];
    [by apply matches_name_lower|].
  eexists. split.
  - unfold update_organization, mbind, M_bind, bind.
    rewrite find_one_completes by (by rewrite Hf).
    unfold lookup_org in Ha. rewrite Ha.
    unfold stage_name, mbind, M_bind, bind.
    rewrite Hn, (valid_name_given n Hvalid).
    apply String.eqb_neq in Hdiff. rewrite Hdiff. cbn [negb].
    rewrite find_one_completes by (cbn; by rewrite Hf).
    cbn [organizations completed]. rewrite Hb'. reflexivity.
  - repeat split; try done.
    unfold calls_since. cbn [log completed].
    rewrite <- !app_assoc, drop_app_length. done.
Qed.

Lemma stage_name_fresh cur n w :
  faults w = None ->
  valid_organization_name n = true ->
  name_key n <> name_key cur ->
  lookup_org n w = None ->
  stage_name (name_key cur) (Some n) w
  = Returned (Updates.stage_rename n (name_key n) (build_org_collection_name n)
                Updates.empty,
              Some (build_org_collection_name n))
      (completed (FindOne (ByNameLower (name_key n))) w).
Proof.
  intros Hf Hvalid Hdiff Hfresh. unfold stage_name, mbind, M_bind, bind.
  rewrite (valid_name_given n Hvalid).
  apply String.eqb_neq in Hdiff. rewrite Hdiff. cbn [negb].
  rewrite find_one_completes by (by rewrite Hf).
  unfold lookup_org in Hfresh. by rewrite Hfresh.
Qed.

(** The updates a rename request ends up with. *)
Lemma rename_updates_staged n k c (e p : option string) salt :
  let u0 := Updates.stage_rename n k c Updates.empty in
  let u1 := match e with
            | Some e => Updates.stage_email (name_key e) u0
            | None => u0
            end in
  let u2 := match p with
            | Some p => Updates.stage_password_hash (hash_password salt p) u1
            | None => u1
            end in
  Updates.nonempty u2 = true
  /\ Updates.name u2 = Some n
  /\ Updates.collection_name u2 = Some c.
Proof. by destruct e, p. Qed.

Ltac run_plan Hk :=
  repeat (progress
    (rewrite ?Hk;
     cbn [faults completed with_tenants with_organizations organizations
          tenants log next_id fmap option_fmap option_map Nat.pred fst snd
          final raised raise negb andb]));
  try done.

Ltac calls_done :=
  unfold calls_since; cbn [log completed with_organizations];
  rewrite <- ?app_assoc, ?drop_app_length, ?drop_all; done.

(** Whatever call fails and whatever the request, [update_organization]
    makes no call on a tenant collection before the record update has
    completed. *)
Lemma update_persists_first now salt current_org_name payload w :
  persisted_first
    (calls_since w
       (final (update_organization now salt current_org_name payload w)))
  = true.
Proof.
  unfold update_organization, stage_name, update_one, find_one, mbind, M_bind,
    bind, mret, M_ret, ret, store_call. cbn zeta.
  destruct (faults w) as [[|[|[|k]]]|] eqn:Hk; run_plan Hk.
  all: try calls_done.
  all: destruct (List.find _ (organizations w)) as [d|]; run_plan Hk;
    try calls_done.
  all: destruct (given (OrganizationUpdate.organization_name payload)) as [n|];
    run_plan Hk.
  all: try destruct (negb (name_key n =? name_key current_org_name));
    run_plan Hk; try calls_done.
  all: try (destruct (List.find (matches (ByNameLower (name_key n))) _);
            run_plan Hk; try calls_done).
  all: destruct (given (OrganizationUpdate.email payload)),
         (given (OrganizationUpdate.password payload));
    cbn [Updates.nonempty Updates.staged Updates.name Updates.name_lower
         Updates.collection_name Updates.email Updates.password_hash
         Updates.updated_at Updates.stage_email Updates.stage_password_hash
         Updates.stage_rename Updates.empty orb];
    run_plan Hk; try calls_done.
  all: try (assert (Ht : PyStr.truthy (build_org_collection_name n) = true)
              by done; rewrite Ht; cbn [andb]).
  all: try (destruct (negb _); run_plan Hk; try calls_done).
  all: match goal with
       | |- context [_migrate_collection ?a ?b ?w3] =>
           destruct (extends_migrate a b w3) as [l Hl];
           destruct (_migrate_collection a b w3) as [[] w'|e w']
       end.
  all: cbn [final] in *; unfold calls_since; rewrite Hl;
    cbn [log completed with_organizations];
    rewrite <- ?app_assoc, drop_app_length; done.
Qed.

(** C1, as the code has it.  Let [update_organization] rename organization
    A to a valid name B whose key no record has, with no call failing.  If
    B's collection name differs from the collection name stored for A, and A's
    collection holds a document or the destination holds none, then after
    the call the collection named by the slug of B exists and holds exactly
    the documents A's collection held, A's old collection is gone, and the
    calls made are the two lookups, the record update, and only then calls on
    tenant collections.  If B's collection name is the one stored for A, no
    tenant collection is touched.  Whatever call of the store fails, no call
    on a tenant collection is made before the record update has completed. *)
Theorem rename_migrates_collection now salt current_org_name payload w d n :
  faults w = None ->
  lookup_org current_org_name w = Some d ->
  OrganizationUpdate.organization_name payload = Some n ->
  valid_organization_name n = true ->
  name_key n <> name_key current_org_name ->
  lookup_org n w = None ->
  let old := OrgDoc.collection_name d in
  let new := build_org_collection_name n in
  (new <> old ->
   documents_of old w <> [] \/ documents_of new w = [] ->
   exists r w' post,
     update_organization now salt current_org_name payload w = Returned r w'
     /\ OrganizationResponse.organization_name r = n
     /\ OrganizationResponse.collection_name r = new
     /\ migrated old new w w'
     /\ calls_since w w'
        = ([FindOne (ByNameLower (name_key current_org_name));
            FindOne (ByNameLower (name_key n));
            UpdateOne (OrgDoc._id d)] ++ post)%list
     /\ forallb tenant_call post = true)
  /\ (new = old ->
      exists r w',
        update_organization now salt current_org_name payload w = Returned r w'
        /\ OrganizationResponse.organization_name r = n
        /\ OrganizationResponse.collection_name r = new
        /\ tenants w' = tenants w
        /\ calls_since w w'
           = [FindOne (ByNameLower (name_key current_org_name));
              FindOne (ByNameLower (name_key n));
              UpdateOne (OrgDoc._id d)])
  /\ (forall plan,
        persisted_first
          (calls_since (with_faults plan w)
             (final (update_organization now salt current_org_name payload
                       (with_faults plan w))))
        = true).
Proof.
  intros Hf Hd Hn Hvalid Hdiff Hfresh old new.

  pose proof Hd as Hfind. unfold lookup_org in Hfind.
  destruct (rename_updates_staged n (name_key n) new
              (given (OrganizationUpdate.email payload))
              (given (OrganizationUpdate.password payload)) salt)
    as (Hne & Hname & Hcoll).
  cbv zeta in Hne, Hname, Hcoll.
  split; [|split; [|intros plan; apply update_persists_first]].
  - intros Hnew Hdocs.
    unfold update_organization, mbind, M_bind, bind.
    rewrite find_one_completes by (by rewrite Hf). rewrite Hfind.
    rewrite Hn, stage_name_fresh; [|cbn; by rewrite Hf|done..].
    fold new.
    match type of Hne with Updates.nonempty ?u = true => set (U := u) in * end.
    rewrite Hne. unfold update_one.
    rewrite store_call_completes by (cbn; by rewrite Hf).
    cbn [fst snd]. unfold mret, M_ret, ret.
    assert (Ht : PyStr.truthy new = true) by done. rewrite Ht.
    apply String.eqb_neq in Hnew as Hnewb. fold old. rewrite Hnewb.
    cbn [negb andb].
    match goal with |- context [_migrate_collection old new ?w3] =>
      destruct (migrate_collection_runs old new w3)
        as (w' & l & Hm & Hmig & _ & _ & Hlog & Hl);
        [cbn; by rewrite Hf|done|exact Hdocs|] end.
    rewrite Hm. eexists _, w', l. split; [reflexivity|].
    cbn [_serialize_org OrganizationResponse.organization_name
         OrganizationResponse.collection_name Updates.set OrgDoc.name
         OrgDoc.collection_name Updates.stage_updated_at Updates.name
         Updates.collection_name].
    rewrite Hname, Hcoll. repeat split; [apply Hmig..| |done].
    apply calls_since_app. rewrite Hlog. cbn. by rewrite <- !app_assoc.
  - intros Hsame.
    unfold update_organization, mbind, M_bind, bind.
    rewrite find_one_completes by (by rewrite Hf). rewrite Hfind.
    rewrite Hn, stage_name_fresh; [|cbn; by rewrite Hf|done..].
    fold new.
    match type of Hne with Updates.nonempty ?u = true => set (U := u) in * end.
    rewrite Hne. unfold update_one.
    rewrite store_call_completes by (cbn; by rewrite Hf).
    cbn [fst snd]. unfold mret, M_ret, ret.
    fold old. rewrite Hsame, String.eqb_refl, andb_false_r.
    do 2 eexists. split; [reflexivity|].
    cbn [_serialize_org OrganizationResponse.organization_name
         OrganizationResponse.collection_name Updates.set OrgDoc.name
         OrgDoc.collection_name Updates.stage_updated_at Updates.name
         Updates.collection_name].
    rewrite Hname, Hcoll. repeat split; [done..|].
    apply calls_since_app. cbn. by rewrite <- !app_assoc.
Qed.

(** C10.  When the requested name has the key of the current name (it
    differs at most in case or in surrounding white space), the name change
    is dropped: the stored [name], [name_lower] and [collection_name] stay
    as they were and no tenant collection is touched, while a truthy email
    is stored lowercased and trimmed and a truthy password is stored hashed,
    with [updated_at] set to the clock when either is given. *)
Theorem update_same_key_keeps_name now salt current_org_name payload w d n :
  faults w = None ->
  unique_ids w ->
  lookup_org current_org_name w = Some d ->
  OrganizationUpdate.organization_name payload = Some n ->
  name_key n = name_key current_org_name ->
  exists d' w',
    update_organization now salt current_org_name payload w
    = Returned (_serialize_org d') w'
    /\ lookup_org current_org_name w' = Some d'
    /\ OrgDoc.name d' = OrgDoc.name d
    /\ OrgDoc.name_lower d' = OrgDoc.name_lower d
    /\ OrgDoc.collection_name d' = OrgDoc.collection_name d
    /\ OrgDoc.email d'
       = from_option name_key (OrgDoc.email d)
           (given (OrganizationUpdate.email payload))
    /\ OrgDoc.password_hash d'
       = from_option (hash_password salt) (OrgDoc.password_hash d)
           (given (OrganizationUpdate.password payload))
    /\ OrgDoc.updated_at d'
       = (if Updates.staged (given (OrganizationUpdate.email payload))
             || Updates.staged (given (OrganizationUpdate.password payload))
          then now else OrgDoc.updated_at d)
    /\ tenants w' = tenants w
    /\ forallb (fun c => negb (tenant_call c)) (calls_since w w') = true.
Proof.
  intros Hf Hids Hd Hn Hsame.
  assert (Hstage : forall w0,
    stage_name (name_key current_org_name)
      (OrganizationUpdate.organization_name payload) w0
    = Returned (Updates.empty, None) w0).
  { intros w0. apply stage_name_unchanged. rewrite Hn. intros m Hm.
    destruct n; cbn in Hm; [done|]. by injection Hm as <-. }
  pose proof Hd as Hfind. unfold lookup_org in Hfind.
  destruct (lookup_org_found _ _ _ Hd) as [_ Hkey].
  destruct (given (OrganizationUpdate.email payload)) as [e|] eqn:He;
    destruct (given (OrganizationUpdate.password payload)) as [pw|] eqn:Hpw.
  all: do 2 eexists; split;
    [ unfold update_organization, mbind, M_bind, bind;
      rewrite find_one_completes by (by rewrite Hf); rewrite Hfind, Hstage;
      rewrite He, Hpw; cbn [Updates.nonempty Updates.staged Updates.name
        Updates.name_lower Updates.collection_name Updates.email
        Updates.password_hash Updates.updated_at Updates.stage_email
        Updates.stage_password_hash Updates.empty orb];
      try (unfold update_one;
           rewrite store_call_completes by (cbn; by rewrite Hf));
      reflexivity
    | ].
  all: repeat split; try done.
  all: try (unfold lookup_org; cbn [organizations completed with_organizations
              fst snd];
            apply find_update_first; [done..|];
            apply matches_name_lower; cbn; done).
  all: unfold calls_since; cbn [log completed with_organizations fst snd];
    rewrite <- ?app_assoc, drop_app_length; done.
Qed.

End Update.

Lemma find_delete_first_unique key (l : list OrgDoc.t) d :
  NoDup (List.map OrgDoc._id l) ->
  NoDup (List.map OrgDoc.name_lower l) ->
  List.find (matches (ByNameLower key)) l = Some d ->
  List.find (matches (ByNameLower key))
    (delete_first (matches (ById (OrgDoc._id d))) l) = None.
Proof.
  induction l as [|x l IH]; cbn; [done|].
  intros [Hix Hil]%NoDup_cons [Hnx Hnl]%NoDup_cons.
  destruct (String.eqb_spec (OrgDoc.name_lower x) key) as [Hk|Hk].
  - intros [= ->]. rewrite Nat.eqb_refl.
    destruct (List.find _ l) as [y|] eqn:Hy; [|done].
    apply find_some in Hy as [Hin Hm]. apply matches_name_lower in Hm.
    destruct Hnx. rewrite Hk, <- Hm. apply list_elem_of_In, in_map, Hin.
  - intros Hfind. destruct (Nat.eqb_spec (OrgDoc._id x) (OrgDoc._id d)) as [E|_].
    + destruct Hix. rewrite E. apply find_some in Hfind as [Hin _].
      apply list_elem_of_In, in_map, Hin.
    + cbn. apply String.eqb_neq in Hk. rewrite Hk. by apply IH.
Qed.

(** What [delete_first] does to a list that holds an element the test
    accepts: the first accepted element leaves, the others stay in place. *)
Lemma delete_first_split {A} (p : A -> bool) (l : list A) a :
  In a l -> p a = true ->
  exists l1 x l2,
    l = (l1 ++ x :: l2)%list
    /\ delete_first p l = (l1 ++ l2)%list
    /\ p x = true
    /\ (forall y, In y l1 -> p y = false).
Proof.
  induction l as [|b l IH]; cbn; [done|].
  intros Hin Ha. destruct (p b) eqn:Hb.
  - exists [], b, l. by repeat split.
  - destruct Hin as [->|Hin]; [congruence|].
    destruct (IH Hin Ha) as (l1 & x & l2 & -> & -> & Hx & Hl1).
    exists (b :: l1), x, l2. repeat split; [done|].
    intros y [<-|Hy]; [done|by apply Hl1].
Qed.

Lemma unique_field_inj {A B} (f : A -> B) (l : list A) a b :
  NoDup (List.map f l) -> In a l -> In b l -> f a = f b -> a = b.
Proof.
  induction l as [|x l IH]; cbn; [done|].
  intros [Hx Hl]%NoDup_cons [->|Ha] [->|Hb] E; try done.
  - destruct Hx. rewrite E. by apply list_elem_of_In, in_map.
  - destruct Hx. rewrite <- E. by apply list_elem_of_In, in_map.
  - by apply IH.
Qed.

(** With unique ids, deleting by the id of a record removes that record
    and no other. *)
Lemma delete_first_by_id_unique (l : list OrgDoc.t) d :
  NoDup (List.map OrgDoc._id l) -> In d l ->
  forall x, In x (delete_first (matches (ById (OrgDoc._id d))) l)
            <-> In x l /\ x <> d.
Proof.
  induction l as [|b l IH]; cbn; [done|].
  intros [Hb Hl]%NoDup_cons Hin x.
  destruct (Nat.eqb_spec (OrgDoc._id b) (OrgDoc._id d)) as [E|E].
  - assert (b = d) as ->.
    { destruct Hin as [->|Hin]; [done|]. destruct Hb. rewrite E.
      by apply list_elem_of_In, in_map. }
    split.
    + intros Hx. split; [by right|]. intros ->. destruct Hb.
      by apply list_elem_of_In, in_map.
    + by intros [[->|Hx] Hne].
  - destruct Hin as [->|Hin]; [done|]. cbn. rewrite (IH Hl Hin x). split.
    + intros [->|[Hx Hne]]; [|by split; [right|]].
      split; [by left|]. by intros ->.
    + intros [[->|Hx] Hne]; [by left|by right].
Qed.

(* ===================================================================== *)
(** * delete *)
(* ===================================================================== *)

Section Delete.
Context `{PasswordHasher}.

Ltac run_with Hk :=
  repeat (progress
    (rewrite ?Hk;
     cbn [faults completed with_tenants with_organizations organizations
          tenants log next_id fmap option_fmap option_map Nat.pred fst snd
          final raised raise]));
  try done.

Ltac unfold_delete :=
  unfold delete_organization, _drop_collection, list_collection_names,
    drop_collection, delete_one, find_one, mbind, M_bind, bind, mret, M_ret,
    ret, store_call; cbn zeta.

Ltac split_on_collection w c Hc :=
  rewrite in_collection_names;
  destruct (tenants w !! c) as [?docs|] eqn:Hc;
  [rewrite bool_decide_true by eauto
  |rewrite bool_decide_false by (by intros [? ?])].

(** Whatever call fails, a failing call on the tenant collections leaves
    the registry as it was, and the registry changes only once the tenant
    collection is gone. *)
Lemma delete_organization_any_plan organization_name w d :
  lookup_org organization_name w = Some d ->
  let o := delete_organization organization_name w in
  (forall call, raised o = Some (StoreFailure call) ->
                tenant_call call = true ->
                organizations (final o) = organizations w)
  /\ (organizations (final o) <> organizations w ->
      tenants (final o) !! OrgDoc.collection_name d = None).
Proof.
  intros Hd. unfold lookup_org in Hd. unfold_delete.
  destruct (faults w) as [[|[|[|[|k]]]]|] eqn:Hk.
  all: run_with Hk; rewrite Hd; run_with Hk.
  all: split_on_collection w (OrgDoc.collection_name d) Hc; run_with Hk.
  all: split; [done|intros _; apply lookup_delete_eq].
Qed.

Lemma delete_organization_runs organization_name w d :
  lookup_org organization_name w = Some d ->
  faults w = None ->
  let c := OrgDoc.collection_name d in
  exists w',
    delete_organization organization_name w = Returned true w'
    /\ tenants w' !! c = None
    /\ (forall c', c' <> c -> tenants w' !! c' = tenants w !! c')
    /\ organizations w'
       = delete_first (matches (ById (OrgDoc._id d))) (organizations w)
    /\ calls_since w w'
       = ([FindOne (ByNameLower (name_key organization_name));
           ListCollectionNames]
          ++ match tenants w !! c with
             | Some _ => [DropCollection c]
             | None => []
             end
          ++ [DeleteOne (OrgDoc._id d)])%list.
Proof.
  intros Hd Hk. cbv zeta. unfold lookup_org in Hd. unfold_delete.
  run_with Hk; rewrite Hd; run_with Hk.
  split_on_collection w (OrgDoc.collection_name d) Hc; run_with Hk.
  all: eexists; split; [reflexivity|]; cbn; repeat split.
  - apply lookup_delete_eq.
  - intros c' Hc'. by apply lookup_delete_ne.
  - apply calls_since_app. cbn. by rewrite <- ?app_assoc.
  - exact Hc.
  - apply calls_since_app. cbn. by rewrite <- ?app_assoc.
Qed.

(** C7.  For an organization that exists, [delete_organization] drops the
    tenant collection and only then deletes the registry record: with no
    failing call the calls are the lookup, the listing, the drop of the
    collection when it exists, and last the deletion of the record; the
    call returns true, the collection is gone and the others are as
    before, and the registry has lost exactly one record, the first one
    with the id of the record found, every other record staying in
    place; with unique ids the record lost is the record found and no
    other, and with unique ids and keys the name is no longer found.
    Whatever call fails, a failure of a call on the tenant collections
    leaves the registry as it was, and the registry changes only when the
    collection is gone.  For a name no record has, the call raises
    "Organization not found" after its lookup, with the registry and the
    tenant collections as before. *)
Theorem delete_drops_collection_first organization_name w :
  (forall d, lookup_org organization_name w = Some d ->
     let c := OrgDoc.collection_name d in
     let o := delete_organization organization_name w in
     (faults w = None ->
      exists w',
        o = Returned true w'
        /\ tenants w' !! c = None
        /\ (forall c', c' <> c -> tenants w' !! c' = tenants w !! c')
        /\ organizations w'
           = delete_first (matches (ById (OrgDoc._id d))) (organizations w)
        /\ calls_since w w'
           = ([FindOne (ByNameLower (name_key organization_name));
               ListCollectionNames]
              ++ match tenants w !! c with
             | Some _ => [DropCollection c]
             | None => []
             end
              ++ [DeleteOne (OrgDoc._id d)])%list
        /\ (exists l1 x l2,
              organizations w = (l1 ++ x :: l2)%list
              /\ organizations w' = (l1 ++ l2)%list
              /\ OrgDoc._id x = OrgDoc._id d
              /\ (forall y, In y l1 -> OrgDoc._id y <> OrgDoc._id d))
        /\ (unique_ids w ->
            forall x, In x (organizations w')
                      <-> In x (organizations w) /\ x <> d)
        /\ (unique_ids w -> unique_names w ->
            lookup_org organization_name w' = None))
     /\ (forall call, raised o = Some (StoreFailure call) ->
                      tenant_call call = true ->
                      organizations (final o) = organizations w)
     /\ (organizations (final o) <> organizations w ->
         tenants (final o) !! c = None))
  /\ (lookup_org organization_name w = None ->
      faults w <> Some 0 ->
      exists w',
        delete_organization organization_name w
        = Raised (ValueError "Organization not found") w'
        /\ organizations w' = organizations w
        /\ tenants w' = tenants w
        /\ calls_since w w'
           = [FindOne (ByNameLower (name_key organization_name))]).
Proof.
  split.
  - intros d Hd c o. split; [|by apply delete_organization_any_plan].
    intros Hk.
    destruct (delete_organization_runs organization_name w d Hd Hk)
      as (w' & Ho & Ht & Hothers & Horgs & Hcalls).
    assert (In d (organizations w)) as Hin.
    { unfold lookup_org in Hd. by apply find_some in Hd as [Hin _]. }
    exists w'. repeat (split; [assumption|]). split; [|split].
    + destruct (delete_first_split (matches (ById (OrgDoc._id d)))
                  (organizations w) d Hin) as (l1 & x & l2 & E & E' & Hx & Hl1).
      { cbn. apply Nat.eqb_refl. }
      exists l1, x, l2. split; [done|]. split; [by rewrite Horgs|].
      split; [by apply Nat.eqb_eq in Hx|].
      intros y Hy. apply Nat.eqb_neq. by apply Hl1.
    + intros Hids x. rewrite Horgs. by apply delete_first_by_id_unique.
    + intros Hids Hnames. unfold lookup_org. rewrite Horgs.
      by apply find_delete_first_unique.
  - intros Hnone Hf. unfold lookup_org in Hnone. eexists. split.
    + unfold delete_organization, mbind, M_bind, bind.
      rewrite find_one_completes by done. rewrite Hnone. reflexivity.
    + repeat split. by apply calls_since_app.
Qed.

End Delete.

(* ===================================================================== *)
(** * login and the auth gate *)
(* ===================================================================== *)

Section Login.
Context `{Signer} `{PasswordHasher} (settings : Settings).

Lemma login_unknown_email now_exp now_iat payload w :
  faults w <> Some 0 ->
  lookup_admin (AdminLoginRequest.email payload) w = None ->
  raised (login settings now_exp now_iat payload w)
  = Some (ValueError "Invalid credentials").
Proof.
  intros Hf Hnone. unfold lookup_admin in Hnone.
  unfold login, mbind, M_bind, bind.
  rewrite find_one_completes by done. by rewrite Hnone.
Qed.

Lemma login_wrong_password now_exp now_iat payload w d :
  faults w <> Some 0 ->
  lookup_admin (AdminLoginRequest.email payload) w = Some d ->
  verify_password (AdminLoginRequest.password payload) (OrgDoc.password_hash d)
  = false ->
  raised (login settings now_exp now_iat payload w)
  = Some (ValueError "Invalid credentials").
Proof.
  intros Hf Hd Hpw. unfold lookup_admin in Hd.
  unfold login, mbind, M_bind, bind.
  rewrite find_one_completes by done. by rewrite Hd, Hpw.
Qed.

(** C8.  A login whose email no record has and a login whose email is
    known but whose password the hasher rejects raise the same exception,
    the ValueError "Invalid credentials", and the login route answers both
    with the same 401 response. *)
Theorem login_failures_identical t1 t1' t2 t2' p1 p2 w1 w2 d :
  faults w1 <> Some 0 ->
  faults w2 <> Some 0 ->
  lookup_admin (AdminLoginRequest.email p1) w1 = None ->
  lookup_admin (AdminLoginRequest.email p2) w2 = Some d ->
  verify_password (AdminLoginRequest.password p2) (OrgDoc.password_hash d)
  = false ->
  raised (login settings t1 t1' p1 w1) = Some (ValueError "Invalid credentials")
  /\ raised (login settings t2 t2' p2 w2) = raised (login settings t1 t1' p1 w1)
  /\ admin_login settings t2 t2' p2 w2 = admin_login settings t1 t1' p1 w1
  /\ admin_login settings t1 t1' p1 w1
     = Some (inl {| status_code := 401; detail := "Invalid credentials" |}).
Proof.
  intros Hf1 Hf2 Hnone Hd Hpw.
  pose proof (login_unknown_email t1 t1' p1 w1 Hf1 Hnone) as E1.
  pose proof (login_wrong_password t2 t2' p2 w2 d Hf2 Hd Hpw) as E2.
  unfold admin_login.
  destruct (login settings t1 t1' p1 w1) as [|e1 ?]; [done|].
  destruct (login settings t2 t2' p2 w2) as [|e2 ?]; [done|].
  cbn in E1, E2. injection E1 as ->. injection E2 as ->. done.
Qed.

Lemma decode_fresh_token now_exp now_iat now subject :
  (now_iat <= now)%Z ->
  (now < now_exp + 60 * access_token_expire_minutes settings)%Z ->
  decode_token settings now (create_access_token settings now_exp now_iat subject)
  = inr {| JwtPayload.exp :=
             Some (now_exp + 60 * access_token_expire_minutes settings)%Z;
           JwtPayload.iat := Some now_iat;
           JwtPayload.claims := subject |}.
Proof.
  intros Hiat Hexp.
  unfold decode_token, create_access_token, jwt_encode, jwt_decode.
  rewrite !String.eqb_refl. unfold validate_iat, validate_exp. cbn.
  destruct (Z.ltb_spec now now_iat); [lia|].
  destruct (Z.leb_spec (now_exp + 60 * access_token_expire_minutes settings) now);
    [lia|done].
Qed.

(** C9.  A token issued by a successful login passes the auth gate at any
    clock reading from its issue to just before its expiry, and the payload
    the gate returns carries the admin email and the organization name of
    the record the login found; a token whose signature is not the one the
    key gives for its header and payload, and a token whose expiry is not
    in the future, are both answered with 401. *)
Theorem issued_token_verifies :
  (forall now_exp now_iat payload w r w' now,
     login settings now_exp now_iat payload w = Returned r w' ->
     (now_iat <= now)%Z ->
     (now < now_exp + 60 * access_token_expire_minutes settings)%Z ->
     exists d claims,
       lookup_admin (AdminLoginRequest.email payload) w = Some d
       /\ TokenResponse.admin_email r = OrgDoc.email d
       /\ TokenResponse.organization_name r = OrgDoc.name d
       /\ get_current_admin settings now (Some (TokenResponse.access_token r))
          = inr claims
       /\ JwtPayload.claims claims !! "admin_email" = Some (OrgDoc.email d)
       /\ JwtPayload.claims claims !! "organization_name"
          = Some (OrgDoc.name d))
  /\ (forall now alg payload signature,
        signature <> sign alg (secret_key settings) payload ->
        get_current_admin settings now (Some (Jws alg payload signature))
        = inl {| status_code := 401; detail := "Invalid or expired token" |})
  /\ (forall now alg payload signature e,
        JwtPayload.exp payload = Some e ->
        (e <= now)%Z ->
        get_current_admin settings now (Some (Jws alg payload signature))
        = inl {| status_code := 401; detail := "Invalid or expired token" |}).
Proof.
  split; [|split].
  - intros now_exp now_iat payload w r w' now Hlogin Hiat Hexp.
    unfold login, mbind, M_bind, bind, find_one, store_call in Hlogin.
    unfold lookup_admin.
    destruct (faults w) as [[|k]|]; [done|..].
    all: destruct (List.find _ (organizations w)) as [d|]; [|done].
    all: destruct (negb (verify_password _ _)); [done|].
    all: injection Hlogin as <- <-; exists d; eexists; split; [done|].
    all: cbn [TokenResponse.admin_email TokenResponse.organization_name
              TokenResponse.access_token]; do 2 (split; [done|]).
    all: unfold get_current_admin; rewrite decode_fresh_token by done.
    all: cbn [JwtPayload.claims].
    all: rewrite lookup_insert_ne, lookup_insert_eq, lookup_insert_eq by done.
    all: rewrite !bool_decide_false by done; done.
  - intros now alg payload signature Hsig.
    unfold get_current_admin, decode_token, jwt_decode.
    destruct (negb (alg =? jwt_algorithm settings)); [done|].
    apply String.eqb_neq in Hsig. by rewrite Hsig.
  - intros now alg payload signature e He Hle.
    unfold get_current_admin, decode_token, jwt_decode.
    destruct (negb (alg =? jwt_algorithm settings)); [done|].
    destruct (negb (signature =? _)); [done|].
    destruct (validate_iat now payload); [done|].
    unfold validate_exp. rewrite He. apply Z.leb_le in Hle. by rewrite Hle.
Qed.

End Login.

(* ===================================================================== *)
(** * The properties on concrete runs *)
(* ===================================================================== *)

Lemma collection_name_follows_rule_witness :
  build_org_collection_name "  ACME  Corp " = build_org_collection_name "acme  corp".
Proof.
  apply (proj1 (proj2 collection_name_follows_rule)). reflexivity.
Defined.

Lemma create_existing_name_rejected_witness :
  exists w',
    create_organization (H := demo_hasher) 5 "salt"
      (demo_create " FOO " "eve@foo.io") demo_world
    = Raised (ValueError "Organization already exists") w'
    /\ organizations w' = organizations demo_world
    /\ tenants w' = tenants demo_world
    /\ next_id w' = next_id demo_world
    /\ log w' = (log demo_world ++ [FindOne (ByNameLower (name_key " FOO "))])%list.
Proof.
  apply (create_existing_name_rejected (H := demo_hasher) 5 "salt"
           (demo_create " FOO " "eve@foo.io") demo_world
           (demo_org 1 "foo" "ann@foo.io")).
  - left. reflexivity.
  - reflexivity.
  - discriminate.
Defined.

Lemma create_then_get_witness :
  exists r w1 w2,
    create_organization (H := demo_hasher) 5 "salt"
      (demo_create "Acme, Inc." "Admin@acme.io") demo_world = Returned r w1
    /\ get_organization "Acme, Inc." w1 = Returned (Some r) w2
    /\ OrganizationResponse.organization_name r = "Acme, Inc."
    /\ OrganizationResponse.email r = PyStr.lower "Admin@acme.io"
    /\ OrganizationResponse.collection_name r
       = build_org_collection_name "Acme, Inc.".
Proof.
  apply (create_then_get (H := demo_hasher) 5 "salt"
           (demo_create "Acme, Inc." "Admin@acme.io") demo_world).
  - reflexivity.
  - reflexivity.
Defined.

(** C5 as claimed fails on an email with a capital letter: the record read
    back right after [create_organization] carries the email in lower case,
    not the email given. *)
Lemma create_then_get_lowercases_email :
  exists r w1 w2,
    lookup_org "Acme, Inc." demo_world = None
    /\ create_organization (H := demo_hasher) 5 "salt"
         (demo_create "Acme, Inc." "Admin@acme.io") demo_world = Returned r w1
    /\ get_organization "Acme, Inc." w1 = Returned (Some r) w2
    /\ OrganizationResponse.email r = "admin@acme.io"
    /\ OrganizationResponse.email r <> "Admin@acme.io".
Proof.
  do 3 eexists. split; [reflexivity|].
  split; [vm_compute; reflexivity|].
  split; [vm_compute; reflexivity|].
  split; [reflexivity|discriminate].
Qed.

Lemma demo_world_unique_names : unique_names demo_world.
Proof. apply (bool_decide_unpack _). vm_compute. exact I. Defined.

Lemma demo_world_unique_ids : unique_ids demo_world.
Proof. apply (bool_decide_unpack _). vm_compute. exact I. Defined.

Lemma update_without_changes_witness :
  exists w',
    update_organization (H := demo_hasher) 9 "salt" "foo"
      (demo_update (Some " FOO ") None (Some "")) demo_world
    = Returned (_serialize_org (demo_org 1 "foo" "ann@foo.io")) w'
    /\ organizations w' = organizations demo_world
    /\ tenants w' = tenants demo_world
    /\ lookup_org "foo" w' = Some (demo_org 1 "foo" "ann@foo.io")
    /\ log w' = (log demo_world ++ [FindOne (ByNameLower (name_key "foo"))])%list.
Proof.
  apply (update_without_changes (H := demo_hasher) 9 "salt" "foo"
           (demo_update (Some " FOO ") None (Some "")) demo_world).
  - discriminate.
  - reflexivity.
  - intros n Hn. injection Hn as <-. reflexivity.
  - reflexivity.
  - reflexivity.
Defined.

Lemma update_to_taken_name_rejected_witness :
  exists w',
    update_organization (H := demo_hasher) 9 "salt" "foo"
      (demo_update (Some "BAR LTD") None None) demo_world
    = Raised (ValueError "Organization name already exists") w'
    /\ organizations w' = organizations demo_world
    /\ tenants w' = tenants demo_world
    /\ lookup_org "foo" w' = Some (demo_org 1 "foo" "ann@foo.io")
    /\ tenants w' !! OrgDoc.collection_name (demo_org 1 "foo" "ann@foo.io")
       = tenants demo_world
           !! OrgDoc.collection_name (demo_org 1 "foo" "ann@foo.io")
    /\ forallb (fun c => negb (tenant_call c)) (calls_since demo_world w') = true.
Proof.
  apply (update_to_taken_name_rejected (H := demo_hasher) 9 "salt" "foo"
           (demo_update (Some "BAR LTD") None None) demo_world
           (demo_org 1 "foo" "ann@foo.io") (demo_org 2 "Bar Ltd" "bob@bar.io")
           "BAR LTD").
  - reflexivity.
  - exact demo_world_unique_names.
  - reflexivity.
  - right. left. reflexivity.
  - discriminate.
  - reflexivity.
  - reflexivity.
  - reflexivity.
Defined.

Lemma update_same_key_keeps_name_witness :
  exists d' w',
    update_organization (H := demo_hasher) 9 "salt" "foo"
      (demo_update (Some " Foo ") (Some " New@Foo.io ") None) demo_world
    = Returned (_serialize_org d') w'
    /\ lookup_org "foo" w' = Some d'
    /\ OrgDoc.name d' = "foo"
    /\ OrgDoc.name_lower d' = "foo"
    /\ OrgDoc.collection_name d' = "org_foo"
    /\ OrgDoc.email d' = "new@foo.io"
    /\ OrgDoc.password_hash d' = "salt$password1"
    /\ OrgDoc.updated_at d' = 9%Z
    /\ tenants w' = tenants demo_world
    /\ forallb (fun c => negb (tenant_call c)) (calls_since demo_world w') = true.
Proof.
  apply (update_same_key_keeps_name (H := demo_hasher) 9 "salt" "foo"
           (demo_update (Some " Foo ") (Some " New@Foo.io ") None) demo_world
           (demo_org 1 "foo" "ann@foo.io") " Foo ").
  - reflexivity.
  - exact demo_world_unique_ids.
  - reflexivity.
  - reflexivity.
  - reflexivity.
Defined.

Lemma rename_migrates_collection_witness :
  exists r w' post,
    update_organization (H := demo_hasher) 9 "salt" "foo"
      (demo_update (Some "Baz") None None) demo_world = Returned r w'
    /\ OrganizationResponse.organization_name r = "Baz"
    /\ OrganizationResponse.collection_name r = "org_baz"
    /\ migrated "org_foo" "org_baz" demo_world w'
    /\ calls_since demo_world w'
       = ([FindOne (ByNameLower "foo"); FindOne (ByNameLower "baz");
           UpdateOne 1] ++ post)%list
    /\ forallb tenant_call post = true.
Proof.
  apply (proj1 (rename_migrates_collection (H := demo_hasher) 9 "salt" "foo"
                  (demo_update (Some "Baz") None None) demo_world
                  (demo_org 1 "foo" "ann@foo.io") "Baz"
                  eq_refl eq_refl eq_refl eq_refl
                  ltac:(discriminate) eq_refl)).
  - discriminate.
  - left. discriminate.
Defined.

(** C1 as claimed fails in two ways.  Renaming "my org" to the fresh name
    "my-org" succeeds and leaves the collection under the old name, since
    both names have the slug "org_my_org".  Renaming "foo", whose collection
    is empty, to the fresh name "baz" succeeds and leaves in "org_baz" the
    document organization "baz!" keeps there, which "org_foo" never held. *)
Lemma rename_not_always_migrated :
  (exists r w',
     lookup_org "my org" same_slug_world
     = Some (demo_org 1 "my org" "ann@my.org")
     /\ lookup_org "my-org" same_slug_world = None
     /\ update_organization (H := demo_hasher) 9 "salt" "my org"
          (demo_update (Some "my-org") None None) same_slug_world
        = Returned r w'
     /\ OrganizationResponse.organization_name r = "my-org"
     /\ tenants w' !! "org_my_org" = Some ["d1"]
     /\ ~ migrated "org_my_org" (build_org_collection_name "my-org")
            same_slug_world w')
  /\ (exists r w',
        lookup_org "foo" taken_slug_world
        = Some (demo_org 1 "foo" "ann@foo.io")
        /\ lookup_org "baz" taken_slug_world = None
        /\ update_organization (H := demo_hasher) 9 "salt" "foo"
             (demo_update (Some "baz") None None) taken_slug_world
           = Returned r w'
        /\ OrganizationResponse.organization_name r = "baz"
        /\ documents_of "org_foo" taken_slug_world = []
        /\ tenants w' !! "org_baz" = Some ["e1"]
        /\ ~ migrated "org_foo" (build_org_collection_name "baz")
               taken_slug_world w').
Proof.
  split.
  - do 2 eexists. do 2 (split; [reflexivity|]).
    split; [vm_compute; reflexivity|].
    split; [reflexivity|]. split; [vm_compute; reflexivity|].
    intros [_ Hgone]. vm_compute in Hgone. discriminate.
  - do 2 eexists. do 2 (split; [reflexivity|]).
    split; [vm_compute; reflexivity|].
    split; [reflexivity|]. split; [reflexivity|].
    split; [vm_compute; reflexivity|].
    intros [Hdocs _]. vm_compute in Hdocs. discriminate.
Qed.

(** The drop of "org_foo" fails: the record of "foo" remains.  With no
    failing call the deletion of "foo" returns true, and afterwards the
    collection "org_foo" is gone, the name "foo" is no longer found, the
    record of "foo" is in the registry no more and the record of "Bar Ltd"
    still is. *)
Lemma delete_drops_collection_first_witness :
  (let w := with_faults (Some 2) demo_world in
   let o := delete_organization "foo" w in
   raised o = Some (StoreFailure (DropCollection "org_foo"))
   /\ organizations (final o) = organizations w)
  /\ (exists w',
        delete_organization "foo" demo_world = Returned true w'
        /\ tenants w' !! "org_foo" = None
        /\ lookup_org "foo" w' = None
        /\ ~ In (demo_org 1 "foo" "ann@foo.io") (organizations w')
        /\ In (demo_org 2 "Bar Ltd" "bob@bar.io") (organizations w')).
Proof.
  split.
  - intros w o. split; [reflexivity|].
    apply (proj1 (proj2 (proj1 (delete_drops_collection_first "foo" w)
                           (demo_org 1 "foo" "ann@foo.io") eq_refl))
             (DropCollection "org_foo")).
    + reflexivity.
    + reflexivity.
  - destruct (proj1 (proj1 (delete_drops_collection_first "foo" demo_world)
                       (demo_org 1 "foo" "ann@foo.io") eq_refl) eq_refl)
      as (w' & Ho & Ht & _ & _ & _ & _ & Hin & Hgone).
    exists w'. split; [exact Ho|]. split; [exact Ht|].
    split; [exact (Hgone demo_world_unique_ids demo_world_unique_names)|].
    split.
    + intros Hd. apply (Hin demo_world_unique_ids) in Hd as [_ Hne].
      exact (Hne eq_refl).
    + apply (Hin demo_world_unique_ids). split.
      * right. left. reflexivity.
      * intros E. apply (f_equal OrgDoc._id) in E. discriminate E.
Defined.

Lemma login_failures_identical_witness :
  let unknown := demo_login "nobody@foo.io" "password1" in
  let wrong := demo_login "Ann@Foo.io" "password2" in
  raised (login (H := demo_signer) (H0 := demo_hasher) demo_settings
            1000 1000 unknown demo_world)
  = Some (ValueError "Invalid credentials")
  /\ raised (login (H := demo_signer) (H0 := demo_hasher) demo_settings
               2000 2000 wrong demo_world)
     = raised (login (H := demo_signer) (H0 := demo_hasher) demo_settings
                 1000 1000 unknown demo_world)
  /\ admin_login (H := demo_signer) (H0 := demo_hasher) demo_settings
       2000 2000 wrong demo_world
     = admin_login (H := demo_signer) (H0 := demo_hasher) demo_settings
         1000 1000 unknown demo_world
  /\ admin_login (H := demo_signer) (H0 := demo_hasher) demo_settings
       1000 1000 unknown demo_world
     = Some (inl {| status_code := 401; detail := "Invalid credentials" |}).
Proof.
  intros unknown wrong.
  apply (login_failures_identical (H := demo_signer) (H0 := demo_hasher)
           demo_settings 1000 1000 2000 2000 unknown wrong demo_world
           demo_world (demo_org 1 "foo" "ann@foo.io")).
  - discriminate.
  - discriminate.
  - reflexivity.
  - reflexivity.
  - reflexivity.
Defined.

Lemma issued_token_verifies_witness :
  exists r w' claims,
    login (H := demo_signer) (H0 := demo_hasher) demo_settings 1000 1001
      (demo_login "Ann@Foo.io" "password1") demo_world = Returned r w'
    /\ get_current_admin (H := demo_signer) demo_settings 4599
         (Some (TokenResponse.access_token r)) = inr claims
    /\ JwtPayload.claims claims !! "admin_email" = Some "ann@foo.io"
    /\ JwtPayload.claims claims !! "organization_name" = Some "foo".
Proof.
  eexists _, _.
  destruct (proj1 (issued_token_verifies (H := demo_signer)
                     (H0 := demo_hasher) demo_settings)
              1000%Z 1001%Z (demo_login "Ann@Foo.io" "password1")
              demo_world _ _ 4599%Z eq_refl)
    as (d & claims & Hd & _ & _ & Hgate & He & Hn).
  - discriminate.
  - reflexivity.
  - exists claims. injection Hd as <-.
    split; [reflexivity|]. split; [exact Hgate|]. split; [exact He|exact Hn].
Defined.

(* ===================================================================== *)
(** * Further properties of the slug *)
(* ===================================================================== *)

Section Slug.
Import PyStr PyStrFacts.

#[local] Arguments us : simpl never.
#[local] Arguments non_alnum : simpl never.

Lemma rule_alnum_lower_fixed c : rule_alnum c = true -> lower_char c = c.
Proof. by_cases_on_char c. Qed.

Lemma us_lower_fixed c : us c = true -> lower_char c = c.
Proof. by_cases_on_char c. Qed.

Lemma not_re_alnum_lower c : re_alnum c = false -> rule_alnum (lower_char c) = false.
Proof. by_cases_on_char c. Qed.

Lemma us_non_alnum c : us c = true -> rule_alnum c = false.
Proof. by_cases_on_char c. Qed.

(** The normal form of a name before the fallback: the scan of the
    lowercased name without its leading and trailing runs. *)
Lemma normalize_org_name_scan name :
  normalize_org_name name
  = or_else (re_sub_runs rule_alnum false (strip_by non_alnum (lower name))) "org".
Proof.
  unfold normalize_org_name. rewrite trimmed_slug_is_rule.
  by rewrite (proj1 (collapse_runs_scan (lower name))), strip_re_sub.
Qed.

Lemma rstrip_fixed_cons p c r :
  rstrip_by p (String c r) = String c r ->
  rstrip_by p r = r /\ (p c = true -> all_chars p r = false).
Proof.
  cbn. destruct (p c && all_chars p r) eqn:E; [done|].
  intros [= E']. split; [done|]. intros Hc. by rewrite Hc in E.
Qed.

Lemma scan_shape u :
  rstrip_by non_alnum u = u ->
  slug_shape false (re_sub_runs rule_alnum false u) = true
  /\ (all_chars non_alnum u = false ->
      slug_shape true (re_sub_runs rule_alnum true u) = true).
Proof.
  induction u as [|c r IH]; [done|].
  intros [Hr Hc]%rstrip_fixed_cons. destruct (IH Hr) as [IH1 IH2]. cbn.
  destruct (rule_alnum c) eqn:E; cbn; rewrite ?E.
  - done.
  - rewrite (non_alnum_true c E) in *. cbn.
    split; [|intros _]; apply IH2; by apply Hc.
Qed.

Lemma lstrip_head p s :
  lstrip_by p s = "" \/ exists c r, lstrip_by p s = String c r /\ p c = false.
Proof.
  induction s as [|c r IH]; [by left|]. cbn.
  destruct (p c) eqn:E; [done|]. right. by exists c, r.
Qed.

Lemma normalize_org_name_shaped name :
  slug_shape true (normalize_org_name name) = true.
Proof.
  rewrite normalize_org_name_scan. unfold strip_by.
  assert (Q : rstrip_by non_alnum
                (lstrip_by non_alnum (rstrip_by non_alnum (lower name)))
              = lstrip_by non_alnum (rstrip_by non_alnum (lower name))).
  { by rewrite rstrip_lstrip_comm, rstrip_absorb. }
  destruct (lstrip_head non_alnum (rstrip_by non_alnum (lower name)))
    as [->|(c & r & E & Hc)]; [done|].
  rewrite E in *. apply rstrip_fixed_cons in Q as [Hr _].
  unfold non_alnum in Hc. apply negb_false_iff in Hc.
  cbn. rewrite Hc. cbn. rewrite Hc. by apply scan_shape.
Qed.

(** Every slug is a non-empty string of letters a-z, digits and single
    underscores that neither starts nor ends with an underscore. *)
Theorem normalize_org_name_shape name :
  slug_shape true (normalize_org_name name) = true.
Proof. apply normalize_org_name_shaped. Qed.

Lemma shape_all_chars s :
  slug_shape true s = true -> all_chars non_alnum s = false.
Proof.
  destruct s as [|c r]; [done|]. cbn. destruct (rule_alnum c) eqn:E.
  - by rewrite (non_alnum_false c E).
  - by rewrite andb_false_r.
Qed.

Lemma shape_lower a s : slug_shape a s = true -> lower s = s.
Proof.
  revert a. induction s as [|c r IH]; intros a; [done|]. cbn.
  destruct (rule_alnum c) eqn:E.
  - intros Hr. by rewrite (rule_alnum_lower_fixed c E), (IH _ Hr).
  - intros [[Hc _]%andb_true_iff Hr]%andb_true_iff.
    by rewrite (us_lower_fixed c Hc), (IH _ Hr).
Qed.

Lemma shape_rstrip a s : slug_shape a s = true -> rstrip_by non_alnum s = s.
Proof.
  revert a. induction s as [|c r IH]; intros a; [done|]. cbn.
  destruct (rule_alnum c) eqn:E.
  - intros Hr. by rewrite (non_alnum_false c E), (IH _ Hr).
  - intros [_ Hr]%andb_true_iff.
    by rewrite (shape_all_chars r Hr), andb_false_r, (IH _ Hr).
Qed.

Lemma shape_scan a s :
  slug_shape a s = true -> re_sub_runs rule_alnum a s = s.
Proof.
  revert a. induction s as [|c r IH]; intros a; [done|]. cbn.
  destruct (rule_alnum c) eqn:E.
  - intros Hr. by rewrite (IH _ Hr).
  - intros [[Hc Ha]%andb_true_iff Hr]%andb_true_iff.
    apply negb_true_iff in Ha as ->. rewrite (IH _ Hr).
    f_equal. symmetry. by apply Ascii.eqb_eq.
Qed.

Lemma shape_fixed s : slug_shape true s = true -> normalize_org_name s = s.
Proof.
  intros Hs. rewrite normalize_org_name_scan.
  rewrite (shape_lower _ _ Hs). unfold strip_by.
  rewrite (shape_rstrip _ _ Hs).
  destruct s as [|c r]; [done|]. cbn in Hs |- *.
  destruct (rule_alnum c) eqn:E; [|by rewrite andb_false_r in Hs].
  rewrite (non_alnum_false c E). cbn. rewrite E.
  by rewrite (shape_scan _ _ Hs).
Qed.

(** Slugging a slug changes nothing. *)
Theorem normalize_org_name_idempotent name :
  normalize_org_name (normalize_org_name name) = normalize_org_name name.
Proof. apply shape_fixed, normalize_org_name_shaped. Qed.

Lemma length_lower s : String.length (lower s) = String.length s.
Proof. induction s as [|c r IH]; cbn; [done|]. by rewrite IH. Qed.

Lemma length_lstrip p s : String.length (lstrip_by p s) <= String.length s.
Proof. induction s as [|c r IH]; cbn; [done|]. destruct (p c); cbn; lia. Qed.

Lemma length_rstrip p s : String.length (rstrip_by p s) <= String.length s.
Proof.
  induction s as [|c r IH]; cbn; [done|].
  destruct (p c && all_chars p r); cbn; lia.
Qed.

Lemma length_scan b s :
  String.length (re_sub_runs rule_alnum b s) <= String.length s.
Proof.
  revert b. induction s as [|c r IH]; intros b; cbn; [done|].
  destruct (rule_alnum c); [|destruct b]; cbn.
  - specialize (IH false). lia.
  - specialize (IH true). lia.
  - specialize (IH true). lia.
Qed.

(** X3.  For a name whose characters are code points below 256, where
    [str.lower] gives one character for one: the substitution never
    lengthens the name, so a slug is at most as long as the name, or is
    the three-letter fallback, and the collection name of a name of 3 to
    64 characters has between 5 and 68 characters. *)
Theorem collection_name_length name :
  String.length (normalize_org_name name) <= Nat.max 3 (String.length name)
  /\ (valid_organization_name name = true ->
      5 <= String.length (build_org_collection_name name) <= 68).
Proof.
  assert (Hle : String.length (normalize_org_name name)
                <= Nat.max 3 (String.length name)).
  { rewrite normalize_org_name_scan. unfold or_else, strip_by.
    pose proof (length_scan false
                  (lstrip_by non_alnum (rstrip_by non_alnum (lower name)))).
    pose proof (length_lstrip non_alnum (rstrip_by non_alnum (lower name))).
    pose proof (length_rstrip non_alnum (lower name)).
    pose proof (length_lower name).
    destruct (re_sub_runs _ _ _); cbn in *; lia. }
  split; [done|]. intros Hv.
  unfold valid_organization_name, constr in Hv.
  apply andb_true_iff in Hv as [_ Hhi%Nat.leb_le].
  pose proof (normalize_org_name_shaped name) as Hs.
  unfold build_org_collection_name.
  change (String.length ("org_" +:+ normalize_org_name name))
    with (4 + String.length (normalize_org_name name)).
  destruct (normalize_org_name name) as [|c r]; [done|].
  change (String.length (String c r)) with (S (String.length r)) in *. lia.
Qed.

Lemma all_non_alnum_lower s :
  all_chars (fun c => negb (re_alnum c)) s = true ->
  all_chars non_alnum (lower s) = true.
Proof.
  induction s as [|c r IH]; cbn; [done|].
  intros [Hc Hr]%andb_true_iff. apply negb_true_iff in Hc.
  rewrite (non_alnum_true _ (not_re_alnum_lower c Hc)). by apply IH.
Qed.

(** X4.  For a name whose characters are code points below 256, where
    [str.lower] gives no letter a-z for a character that is none: a name
    without any letter a-z, A-Z or digit gets the fallback slug, so all
    such names share the collection "org_org". *)
Theorem names_without_alnum_share_collection name :
  all_chars (fun c => negb (re_alnum c)) name = true ->
  build_org_collection_name name = "org_org".
Proof.
  intros Hn. unfold build_org_collection_name.
  rewrite normalize_org_name_scan. unfold strip_by.
  by rewrite (all_chars_rstrip_empty _ _ (all_non_alnum_lower name Hn)).
Qed.

End Slug.

Lemma names_without_alnum_share_collection_witness :
  build_org_collection_name "!!! ???" = "org_org".
Proof. apply names_without_alnum_share_collection. reflexivity. Defined.

(* ===================================================================== *)
(** * The invariant of the registry *)
(* ===================================================================== *)

Lemma keeps_registry_ret {A} (a : A) : keeps_registry (mret a).
Proof. done. Qed.

Lemma keeps_registry_raise {A} e : keeps_registry (raise (A := A) e).
Proof. done. Qed.

Lemma keeps_registry_bind {A B} (m : M A) (k : A -> M B) :
  keeps_registry m -> (forall a, keeps_registry (k a)) ->
  keeps_registry (m ≫= k).
Proof.
  intros Hm Hk w. unfold mbind, M_bind, bind.
  destruct (Hm w) as [Ho Hn]. destruct (m w) as [a w1|e w1]; cbn in Ho, Hn.
  - destruct (Hk a w1) as [Ho' Hn']. by rewrite Ho', Hn'.
  - done.
Qed.

Lemma keeps_registry_store_call {A} c (f : World -> A * World) :
  (forall w, organizations (f w).2 = organizations w
             /\ next_id (f w).2 = next_id w) ->
  keeps_registry (store_call c f).
Proof.
  intros Hf w. unfold store_call.
  destruct (faults w) as [[|k]|]; [done|..].
  all: specialize (Hf w); destruct (f w) as [a w1]; cbn in *; done.
Qed.

Lemma keeps_registry_find_one q : keeps_registry (find_one q).
Proof. by apply keeps_registry_store_call. Qed.

Lemma keeps_registry_ensure c : keeps_registry (_ensure_collection_exists c).
Proof.
  apply keeps_registry_bind; [by apply keeps_registry_store_call|].
  intros names. case_bool_decide; [apply keeps_registry_ret|].
  intros w. unfold create_collection.
  destruct (tenants w !! c); [done|]. by apply keeps_registry_store_call.
Qed.

Lemma keeps_registry_drop c : keeps_registry (_drop_collection c).
Proof.
  apply keeps_registry_bind; [by apply keeps_registry_store_call|].
  intros names. case_bool_decide; [|apply keeps_registry_ret].
  by apply keeps_registry_store_call.
Qed.

Lemma keeps_registry_migrate old new :
  keeps_registry (_migrate_collection old new).
Proof.
  unfold _migrate_collection.
  destruct (String.eqb old new); [apply keeps_registry_ret|].
  apply keeps_registry_bind; [apply keeps_registry_ensure|]. intros _.
  apply keeps_registry_bind; [by apply keeps_registry_store_call|]. intros docs.
  apply keeps_registry_bind; [|intros _; by apply keeps_registry_store_call].
  destruct docs as [|x docs]; [apply keeps_registry_ret|].
  apply keeps_registry_bind; [|intros _; by apply keeps_registry_store_call].
  apply keeps_registry_store_call. intros w. cbn. by destruct (tenants w !! new).
Qed.

Lemma find_none_not_in (f : OrgDoc.t -> string) k l :
  List.find (fun d => String.eqb (f d) k) l = None ->
  k ∉ List.map f l.
Proof.
  intros Hnone Hin. apply list_elem_of_In, in_map_iff in Hin as (d & Hd & Hin).
  pose proof (find_none _ _ Hnone d Hin) as Hneq. cbn in Hneq.
  rewrite Hd, String.eqb_refl in Hneq. done.
Qed.

Lemma registry_ok_frame w w' :
  organizations w' = organizations w -> next_id w' = next_id w ->
  registry_ok w -> registry_ok w'.
Proof.
  unfold registry_ok, unique_ids, unique_names, ids_below_next,
    derived_fields_ok. by intros -> ->.
Qed.

Lemma map_id_update_first p u l :
  List.map OrgDoc._id (update_first p (Updates.set u) l) = List.map OrgDoc._id l.
Proof.
  induction l as [|x l IH]; cbn; [done|]. destruct (p x); cbn; by rewrite ?IH.
Qed.

Lemma elem_of_map_update_first {A B} (f : A -> B) p g k l y :
  (forall x, f (g x) = k) ->
  y ∈ List.map f (update_first p g l) -> y ∈ List.map f l \/ y = k.
Proof.
  intros Hg. induction l as [|x l IH]; cbn; [by left|].
  destruct (p x); cbn.
  - intros [->|Hy]%elem_of_cons; [by right|]. left. by apply elem_of_cons; right.
  - intros [->|Hy]%elem_of_cons; [left; by apply elem_of_cons; left|].
    destruct (IH Hy); [left; by apply elem_of_cons; right|by right].
Qed.

Lemma NoDup_map_update_first {A B} (f : A -> B) p g k l :
  (forall x, f (g x) = k) ->
  NoDup (List.map f l) -> k ∉ List.map f l ->
  NoDup (List.map f (update_first p g l)).
Proof.
  intros Hg. induction l as [|x l IH]; cbn; [done|].
  intros [Hx Hl]%NoDup_cons Hk. apply not_elem_of_cons in Hk as [Hkx Hkl].
  destruct (p x); cbn; apply NoDup_cons.
  - by rewrite Hg.
  - split; [|by apply IH]. intros Hin.
    destruct (elem_of_map_update_first f p g k l _ Hg Hin); congruence.
Qed.

Lemma Forall_update_first {A} (P : A -> Prop) p g l :
  (forall x, P x -> P (g x)) -> Forall P l -> Forall P (update_first p g l).
Proof.
  intros Hg. induction 1 as [|x l Hx Hl IH]; cbn; [done|].
  destruct (p x); constructor; auto.
Qed.

Lemma elem_of_map_delete_first {A B} (f : A -> B) p l y :
  y ∈ List.map f (delete_first p l) -> y ∈ List.map f l.
Proof.
  induction l as [|x l IH]; cbn; [done|]. destruct (p x); cbn.
  - intros Hy. by apply elem_of_cons; right.
  - intros [->|Hy]%elem_of_cons; apply elem_of_cons; auto.
Qed.

Lemma NoDup_map_delete_first {A B} (f : A -> B) p l :
  NoDup (List.map f l) -> NoDup (List.map f (delete_first p l)).
Proof.
  induction l as [|x l IH]; cbn; [done|].
  intros [Hx Hl]%NoDup_cons. destruct (p x); cbn; [done|].
  apply NoDup_cons. split; [|by apply IH].
  intros Hin. by apply Hx, (elem_of_map_delete_first f p).
Qed.

Lemma Forall_delete_first {A} (P : A -> Prop) p l :
  Forall P l -> Forall P (delete_first p l).
Proof.
  induction 1 as [|x l Hx Hl IH]; cbn; [done|].
  destruct (p x); [done|]. by constructor.
Qed.

Section Invariant.
Context `{PasswordHasher}.

(** What [create_organization] does to the registry, whatever call fails:
    nothing, or it appends the new record under the next id. *)
Lemma create_organization_effect now salt payload w :
  let w' := final (create_organization now salt payload w) in
  (organizations w' = organizations w /\ next_id w' = next_id w)
  \/ (lookup_org (OrganizationCreate.organization_name payload) w = None
      /\ organizations w'
         = (organizations w ++ [created_doc now salt payload (next_id w)])%list
      /\ next_id w' = S (next_id w)).
Proof.
  cbv zeta. unfold create_organization, mbind, M_bind, bind, lookup_org.
  unfold find_one, store_call.
  destruct (faults w) as [[|k]|] eqn:Hk; [by left|..].
  all: destruct (List.find _ (organizations w)) eqn:Hfind; [by left|].
  all: match goal with |- context [_ensure_collection_exists ?c ?w1] =>
         destruct (keeps_registry_ensure c w1) as [Ho Hn];
         destruct (_ensure_collection_exists c w1) as [[] w2|e w2]
       end; cbn [final] in Ho, Hn; [|by left].
  all: unfold insert_one, store_call;
       destruct (faults w2) as [[|k2]|]; [by left|..].
  all: right; cbn; rewrite Ho, Hn; done.
Qed.

Lemma create_organization_preserves_registry_ok now salt payload w :
  registry_ok w ->
  registry_ok (final (create_organization now salt payload w)).
Proof.
  intros Hok.
  destruct (create_organization_effect now salt payload w)
    as [[Ho Hn]|(Hfresh & Ho & Hn)]; [by apply (registry_ok_frame w)|].
  destruct Hok as (Hids & Hnames & Hbelow & Hder).
  unfold registry_ok, unique_ids, unique_names, ids_below_next,
    derived_fields_ok in *. rewrite Ho, Hn, !map_app. cbn [List.map].
  repeat split.
  - apply NoDup_app. split; [done|]. split; [|apply NoDup_singleton].
    intros i Hi ->%list_elem_of_singleton.
    apply list_elem_of_In, in_map_iff in Hi as (d & Hd & Hin).
    rewrite Forall_forall in Hbelow. apply list_elem_of_In in Hin.
    specialize (Hbelow d Hin). cbn in Hd. lia.
  - apply NoDup_app. split; [done|]. split; [|apply NoDup_singleton].
    intros k Hk ->%list_elem_of_singleton.
    by apply (find_none_not_in OrgDoc.name_lower _ _ Hfresh).
  - apply Forall_app. split.
    + eapply Forall_impl; [exact Hbelow|]. cbn. lia.
    + apply Forall_singleton. cbn. lia.
  - apply Forall_app. split; [done|]. by apply Forall_singleton.
Qed.

(** [create_organization] keeps the invariant of the registry, whatever
    call fails: ids and keys stay unique, ids stay below the next id, and
    the derived fields of every record follow from its name. *)
Theorem create_organization_keeps_registry_ok now salt payload w :
  registry_ok w ->
  registry_ok (final (create_organization now salt payload w)).
Proof. apply create_organization_preserves_registry_ok. Qed.

Ltac run_on Hk :=
  repeat (progress
    (rewrite ?Hk;
     cbn [faults completed with_tenants with_organizations organizations
          tenants log next_id fmap option_fmap option_map Nat.pred fst snd
          final raised raise negb andb]));
  try done.

(** What [update_organization] does to the registry, whatever call fails:
    nothing, or one [$set] on the record found, which either leaves the
    three name fields alone or sets them together for a name whose key is
    free. *)
Lemma update_organization_effect now salt current_org_name payload w :
  let w' := final (update_organization now salt current_org_name payload w) in
  next_id w' = next_id w
  /\ (organizations w' = organizations w
      \/ exists d u,
           lookup_org current_org_name w = Some d
           /\ organizations w'
              = update_first (matches (ById (OrgDoc._id d))) (Updates.set u)
                  (organizations w)
           /\ ((Updates.name u = None /\ Updates.name_lower u = None
                /\ Updates.collection_name u = None)
               \/ exists n,
                    Updates.name u = Some n
                    /\ Updates.name_lower u = Some (name_key n)
                    /\ Updates.collection_name u
                       = Some (build_org_collection_name n)
                    /\ lookup_org n w = None)).
Proof.
  cbv zeta. unfold lookup_org.
  unfold update_organization, stage_name, update_one, find_one, mbind, M_bind,
    bind, mret, M_ret, ret, store_call. cbn zeta.
  destruct (faults w) as [[|[|[|k]]]|] eqn:Hk; run_on Hk.
  all: try (split; [done|by left]).
  all: destruct (List.find _ (organizations w)) as [d|] eqn:Hd; run_on Hk;
    try (split; [done|by left]).
  all: destruct (given (OrganizationUpdate.organization_name payload)) as [n|];
    run_on Hk.
  all: try destruct (negb (name_key n =? name_key current_org_name));
    run_on Hk; try (split; [done|by left]).
  all: try (destruct (List.find (matches (ByNameLower (name_key n))) _) eqn:Hn;
            run_on Hk; try (split; [done|by left])).
  all: destruct (given (OrganizationUpdate.email payload)),
         (given (OrganizationUpdate.password payload));
    cbn [Updates.nonempty Updates.staged Updates.name Updates.name_lower
         Updates.collection_name Updates.email Updates.password_hash
         Updates.updated_at Updates.stage_email Updates.stage_password_hash
         Updates.stage_rename Updates.empty orb];
    run_on Hk; try (split; [done|by left]).
  all: try (assert (Ht : PyStr.truthy (build_org_collection_name n) = true)
              by done; rewrite Ht; cbn [andb]).
  all: try (destruct (negb (_ =? OrgDoc.collection_name d)); run_on Hk).
  all: try match goal with
       | |- context [_migrate_collection ?a ?b ?w3] =>
           destruct (keeps_registry_migrate a b w3) as [Ho Hnx];
           destruct (_migrate_collection a b w3) as [[] w'|e w'];
           cbn [final] in Ho, Hnx |- *; rewrite Ho, Hnx; run_on Hk
       end.
  all: split; [done|right; exists d; eexists; split; [done|]; split;
                    [reflexivity|]].
  all: try (left; done).
  all: right; exists n; done.
Qed.

Lemma update_organization_preserves_registry_ok now salt current_org_name payload w :
  registry_ok w ->
  registry_ok (final (update_organization now salt current_org_name payload w)).
Proof.
  intros Hok.
  destruct (update_organization_effect now salt current_org_name payload w)
    as [Hn [Ho|(d & u & Hd & Ho & Hu)]]; [by apply (registry_ok_frame w)|].
  destruct Hok as (Hids & Hnames & Hbelow & Hder).
  unfold registry_ok, unique_ids, unique_names, ids_below_next,
    derived_fields_ok in *. rewrite Ho, Hn. repeat split.
  - by rewrite map_id_update_first.
  - destruct Hu as [(_ & Hl & _)|(n & _ & Hl & _ & Hfresh)].
    + assert (E : forall l, List.map OrgDoc.name_lower
                    (update_first (matches (ById (OrgDoc._id d)))
                       (Updates.set u) l)
                  = List.map OrgDoc.name_lower l).
      { induction l as [|x l IH]; cbn; [done|].
        destruct (OrgDoc._id x =? OrgDoc._id d)%nat; cbn; by rewrite ?Hl, ?IH. }
      by rewrite E.
    + apply (NoDup_map_update_first _ _ _ (name_key n)); [|done|].
      * intros x. cbn. by rewrite Hl.
      * by apply (find_none_not_in OrgDoc.name_lower _ _ Hfresh).
  - apply Forall_update_first; [|done]. by intros x.
  - apply Forall_update_first; [|done]. intros x [Hx1 Hx2]. cbn.
    destruct Hu as [(-> & -> & ->)|(n & -> & -> & -> & _)]; done.
Qed.

(** With unique ids, an update by the id of a record changes that record
    in place and no other. *)
Lemma update_first_by_id_unique (f : OrgDoc.t -> OrgDoc.t) (l : list OrgDoc.t) d :
  NoDup (List.map OrgDoc._id l) -> In d l ->
  exists l1 l2,
    l = (l1 ++ d :: l2)%list
    /\ update_first (matches (ById (OrgDoc._id d))) f l = (l1 ++ f d :: l2)%list.
Proof.
  induction l as [|b l IH]; cbn; [done|].
  intros [Hb Hl]%NoDup_cons Hin.
  destruct (Nat.eqb_spec (OrgDoc._id b) (OrgDoc._id d)) as [E|E].
  - assert (b = d) as ->.
    { destruct Hin as [->|Hin]; [done|]. destruct Hb. rewrite E.
      by apply list_elem_of_In, in_map. }
    by exists [], l.
  - destruct Hin as [->|Hin]; [done|].
    destruct (IH Hl Hin) as (l1 & l2 & E1 & E2).
    exists (b :: l1), l2. cbn. by rewrite <- E1, E2.
Qed.

(** X6.  [update_organization] keeps the invariant of the registry,
    whatever call fails and whatever the request, and changes at most the
    record found: the registry is as before, or the record found is
    replaced in place by a record with the same id and creation time whose
    three name fields are either all as before, or all set together from
    one new name whose key no record had. *)
Theorem update_organization_keeps_registry_ok now salt current_org_name payload w :
  registry_ok w ->
  let w' := final (update_organization now salt current_org_name payload w) in
  registry_ok w'
  /\ next_id w' = next_id w
  /\ (organizations w' = organizations w
      \/ exists d d' l1 l2,
           lookup_org current_org_name w = Some d
           /\ organizations w = (l1 ++ d :: l2)%list
           /\ organizations w' = (l1 ++ d' :: l2)%list
           /\ OrgDoc._id d' = OrgDoc._id d
           /\ OrgDoc.created_at d' = OrgDoc.created_at d
           /\ ((OrgDoc.name d' = OrgDoc.name d
                /\ OrgDoc.name_lower d' = OrgDoc.name_lower d
                /\ OrgDoc.collection_name d' = OrgDoc.collection_name d)
               \/ (OrgDoc.name_lower d' = name_key (OrgDoc.name d')
                   /\ OrgDoc.collection_name d'
                      = build_org_collection_name (OrgDoc.name d')
                   /\ lookup_org (OrgDoc.name d') w = None))).
Proof.
  intros Hok w'. split; [by apply update_organization_preserves_registry_ok|].
  destruct (update_organization_effect now salt current_org_name payload w)
    as [Hn Heff].
  split; [exact Hn|]. destruct Heff as [E|(d & u & Hd & E & Hu)]; [by left|].
  right. destruct Hok as (Hids & _).
  assert (In d (organizations w)) as Hin.
  { unfold lookup_org in Hd. by apply find_some in Hd as [Hin _]. }
  destruct (update_first_by_id_unique (Updates.set u) _ d Hids Hin)
    as (l1 & l2 & E1 & E2).
  exists d, (Updates.set u d), l1, l2. split; [exact Hd|]. split; [exact E1|].
  split; [unfold w'; by rewrite E, E2|]. split; [done|]. split; [done|].
  destruct Hu as [(En & Ek & Ec)|(n & En & Ek & Ec & Hfree)].
  - left. cbn. by rewrite En, Ek, Ec.
  - right. cbn. by rewrite En, Ek, Ec.
Qed.

(** What [delete_organization] does to the registry, whatever call fails:
    nothing, or it removes the record found. *)
Lemma delete_organization_effect organization_name w :
  let w' := final (delete_organization organization_name w) in
  next_id w' = next_id w
  /\ (organizations w' = organizations w
      \/ exists d,
           lookup_org organization_name w = Some d
           /\ organizations w'
              = delete_first (matches (ById (OrgDoc._id d))) (organizations w)).
Proof.
  cbv zeta. unfold lookup_org, delete_organization, mbind, M_bind, bind.
  unfold find_one, store_call.
  destruct (faults w) as [[|k]|] eqn:Hk; [split; [done|by left]|..].
  all: destruct (List.find _ (organizations w)) as [d|] eqn:Hd;
    [|split; [done|by left]].
  all: match goal with |- context [_drop_collection ?c ?w1] =>
         destruct (keeps_registry_drop c w1) as [Ho Hn];
         destruct (_drop_collection c w1) as [[] w2|e w2]
       end; cbn [final] in Ho, Hn; [|split; [done|by left]].
  all: unfold delete_one, store_call;
       destruct (faults w2) as [[|k2]|]; [split; [done|by left]|..].
  all: cbn; rewrite Ho, Hn; split; [done|right; by exists d].
Qed.

Lemma delete_organization_preserves_registry_ok organization_name w :
  registry_ok w ->
  registry_ok (final (delete_organization organization_name w)).
Proof.
  intros Hok.
  destruct (delete_organization_effect organization_name w)
    as [Hn [Ho|(d & Hd & Ho)]]; [by apply (registry_ok_frame w)|].
  destruct Hok as (Hids & Hnames & Hbelow & Hder).
  unfold registry_ok, unique_ids, unique_names, ids_below_next,
    derived_fields_ok in *. rewrite Ho, Hn. repeat split.
  - by apply NoDup_map_delete_first.
  - by apply NoDup_map_delete_first.
  - by apply Forall_delete_first.
  - by apply Forall_delete_first.
Qed.

(** [delete_organization] keeps the invariant of the registry, whatever
    call fails. *)
Theorem delete_organization_keeps_registry_ok organization_name w :
  registry_ok w ->
  registry_ok (final (delete_organization organization_name w)).
Proof. apply delete_organization_preserves_registry_ok. Qed.

Lemma get_organization_frame name w :
  organizations (final (get_organization name w)) = organizations w
  /\ next_id (final (get_organization name w)) = next_id w.
Proof.
  apply (keeps_registry_bind (find_one _)); [apply keeps_registry_find_one|].
  intros org. apply keeps_registry_ret.
Qed.

(** X8.  Every world the organization service can get to from an empty
    registry by calls that run one after another, none starting before
    the one before it has returned or raised, whatever store calls failed
    on the way, satisfies the invariant of the registry: unique ids,
    unique keys, ids below the next id, and derived fields that follow
    from the names.  Nothing is stated of calls that overlap. *)
Theorem reachable_registry_ok w : sequentially_reachable w -> registry_ok w.
Proof.
  induction 1 as [t l k|now salt payload w _ IH|name w _ IH|email w _ IH
                  |now salt name payload w _ IH|name w _ IH|t w _ IH|k w _ IH].
  - repeat split; constructor.
  - by apply create_organization_preserves_registry_ok.
  - destruct (get_organization_frame name w). by apply (registry_ok_frame w).
  - destruct (keeps_registry_find_one (ByEmail (name_key email)) w).
    by apply (registry_ok_frame w).
  - by apply update_organization_preserves_registry_ok.
  - by apply delete_organization_preserves_registry_ok.
  - by apply (registry_ok_frame w).
  - by apply (registry_ok_frame w).
Qed.

End Invariant.

(* ===================================================================== *)
(** * Round trips of the registry operations *)
(* ===================================================================== *)

Lemma keeps_no_faults_ret {A} (a : A) : keeps_no_faults (mret a).
Proof. by intros w Hf. Qed.

Lemma keeps_no_faults_raise {A} e : keeps_no_faults (raise (A := A) e).
Proof. by intros w Hf. Qed.

Lemma keeps_no_faults_bind {A B} (m : M A) (k : A -> M B) :
  keeps_no_faults m -> (forall a, keeps_no_faults (k a)) ->
  keeps_no_faults (m ≫= k).
Proof.
  intros Hm Hk w Hf. unfold mbind, M_bind, bind.
  specialize (Hm w Hf). destruct (m w) as [a w1|e w1]; cbn in Hm; [|done].
  by apply Hk.
Qed.

Lemma keeps_no_faults_store_call {A} c (f : World -> A * World) :
  (forall w, faults (f w).2 = faults w) -> keeps_no_faults (store_call c f).
Proof.
  intros Hfw w Hf. unfold store_call. rewrite Hf.
  specialize (Hfw w). destruct (f w) as [a w1]. cbn in *. by rewrite Hfw, Hf.
Qed.


Lemma keeps_no_faults_drop c : keeps_no_faults (_drop_collection c).
Proof.
  apply keeps_no_faults_bind; [by apply keeps_no_faults_store_call|].
  intros names. case_bool_decide; [|apply keeps_no_faults_ret].
  by apply keeps_no_faults_store_call.
Qed.


Lemma keeps_no_faults_delete name :
  keeps_no_faults (delete_organization name).
Proof.
  apply keeps_no_faults_bind; [by apply keeps_no_faults_store_call|].
  intros [d|]; [|apply keeps_no_faults_raise].
  apply keeps_no_faults_bind; [apply keeps_no_faults_drop|]. intros _.
  apply keeps_no_faults_bind; [by apply keeps_no_faults_store_call|].
  intros _. apply keeps_no_faults_ret.
Qed.

Section RoundTrips.
Context `{PasswordHasher}.

(** [create_organization] on a free key when no call fails. *)
Lemma create_organization_runs now salt payload w :
  faults w = None ->
  lookup_org (OrganizationCreate.organization_name payload) w = None ->
  let c := build_org_collection_name
             (OrganizationCreate.organization_name payload) in
  let doc := created_doc now salt payload (next_id w) in
  exists w1,
    create_organization now salt payload w = Returned (_serialize_org doc) w1
    /\ organizations w1 = (organizations w ++ [doc])%list
    /\ next_id w1 = S (next_id w)
    /\ faults w1 = None
    /\ tenants w1 !! c = Some (documents_of c w)
    /\ (forall c', c' <> c -> tenants w1 !! c' = tenants w !! c').
Proof.
  intros Hf Hfresh c doc. unfold lookup_org in Hfresh.
  set (w0 := completed (FindOne (ByNameLower (name_key
               (OrganizationCreate.organization_name payload)))) w).
  assert (Hf0 : faults w0 = None) by (cbn; by rewrite Hf).
  destruct (ensured_frame c w0) as (Ho & Hn & Hfe). specialize (Hfe Hf0).
  destruct (ensured_lookup c w0) as (Hc & Hother & _).
  eexists. split.
  - unfold create_organization, mbind, M_bind, bind.
    rewrite find_one_completes by (by rewrite Hf). rewrite Hfresh.
    fold w0. fold c. rewrite ensure_collection_exists_runs by done.
    unfold insert_one. rewrite store_call_completes by (by rewrite Hfe).
    cbn [fst snd]. unfold mret, M_ret, ret. f_equal.
    unfold doc, created_doc, with_id. cbn. by rewrite Hn.
  - cbn. rewrite Ho, Hn, Hfe. repeat split; done.
Qed.

Lemma delete_first_fresh_last (l : list OrgDoc.t) d :
  Forall (fun x => OrgDoc._id x <> OrgDoc._id d) l ->
  delete_first (matches (ById (OrgDoc._id d))) (l ++ [d]) = l.
Proof.
  induction 1 as [|x l Hx Hl IH]; cbn.
  - by rewrite Nat.eqb_refl.
  - apply Nat.eqb_neq in Hx. by rewrite Hx, IH.
Qed.

(** Creating an organization under a free key and deleting it right after
    gives back the registry as it was; the collection of the slug is gone,
    whether the creation made it or found it, and every other collection
    is as before. *)
Theorem create_then_delete now salt payload w :
  faults w = None ->
  ids_below_next w ->
  lookup_org (OrganizationCreate.organization_name payload) w = None ->
  let name := OrganizationCreate.organization_name payload in
  exists r w1 w2,
    create_organization now salt payload w = Returned r w1
    /\ delete_organization name w1 = Returned true w2
    /\ organizations w2 = organizations w
    /\ lookup_org name w2 = None
    /\ tenants w2 !! build_org_collection_name name = None
    /\ (forall c, c <> build_org_collection_name name ->
                  tenants w2 !! c = tenants w !! c).
Proof.
  intros Hf Hbelow Hfresh name.
  destruct (create_organization_runs now salt payload w Hf Hfresh)
    as (w1 & Hc & Ho1 & Hn1 & Hf1 & Ht1 & Hother1).
  set (doc := created_doc now salt payload (next_id w)) in *.
  assert (Hd : lookup_org name w1 = Some doc).
  { unfold lookup_org in *. rewrite Ho1, (find_app_fresh _ _ _ Hfresh).
    cbn. by rewrite String.eqb_refl. }
  destruct (delete_organization_runs name w1 doc Hd Hf1)
    as (w2 & Hdel & Hgone & Hother2 & Ho2 & _).
  exists (_serialize_org doc), w1, w2. repeat split; try done.
  - rewrite Ho2, Ho1. apply delete_first_fresh_last.
    eapply Forall_impl; [exact Hbelow|]. cbn. lia.
  - unfold lookup_org in *. rewrite Ho2, Ho1, delete_first_fresh_last; [done|].
    eapply Forall_impl; [exact Hbelow|]. cbn. lia.
  - intros c Hc'. rewrite Hother2 by done. by apply Hother1.
Qed.

(** In a registry with unique ids and keys, after [delete_organization]
    the name is no longer found by [get_organization] and the tenant
    collection of the record no longer exists. *)
Theorem delete_then_get organization_name w d :
  faults w = None ->
  unique_ids w -> unique_names w ->
  lookup_org organization_name w = Some d ->
  exists w1 w2,
    delete_organization organization_name w = Returned true w1
    /\ get_organization organization_name w1 = Returned None w2
    /\ organizations w2
       = delete_first (matches (ById (OrgDoc._id d))) (organizations w)
    /\ tenants w2 !! OrgDoc.collection_name d = None.
Proof.
  intros Hf Hids Hnames Hd.
  destruct (delete_organization_runs organization_name w d Hd Hf)
    as (w1 & Hdel & Hgone & _ & Ho1 & Hcalls).
  assert (Hf1 : faults w1 = None).
  { pose proof (keeps_no_faults_delete organization_name w Hf) as Hk.
    by rewrite Hdel in Hk. }
  exists w1. eexists. split; [done|]. split.
  - unfold get_organization, mbind, M_bind, bind.
    rewrite find_one_completes by (by rewrite Hf1). rewrite Ho1.
    unfold lookup_org in Hd.
    by rewrite (find_delete_first_unique _ _ d Hids Hnames Hd).
  - done.
Qed.

Lemma find_app_none {A} (p : A -> bool) l l' :
  List.find p l = None -> List.find p (l ++ l') = List.find p l'.
Proof.
  induction l as [|x l IH]; cbn; [done|]. destruct (p x); [done|]. apply IH.
Qed.

Lemma delete_first_fresh_middle (l r : list OrgDoc.t) d :
  Forall (fun x => OrgDoc._id x <> OrgDoc._id d) l ->
  delete_first (matches (ById (OrgDoc._id d))) (l ++ d :: r) = (l ++ r)%list.
Proof.
  induction 1 as [|x l Hx Hl IH]; cbn.
  - by rewrite Nat.eqb_refl.
  - apply Nat.eqb_neq in Hx. by rewrite Hx, IH.
Qed.

(** Nothing keeps two organizations from one tenant collection: two names
    with different keys and one slug can both be created, their records
    carry the same collection name, and deleting the first organization
    drops the collection the second one still points to. *)
Theorem names_with_one_slug_share_collection now salt pa pb w :
  let a := OrganizationCreate.organization_name pa in
  let b := OrganizationCreate.organization_name pb in
  faults w = None ->
  ids_below_next w ->
  name_key a <> name_key b ->
  build_org_collection_name a = build_org_collection_name b ->
  lookup_org a w = None ->
  lookup_org b w = None ->
  exists ra rb w1 w2 w3 d,
    create_organization now salt pa w = Returned ra w1
    /\ create_organization now salt pb w1 = Returned rb w2
    /\ OrganizationResponse.collection_name ra
       = OrganizationResponse.collection_name rb
    /\ delete_organization a w2 = Returned true w3
    /\ lookup_org b w3 = Some d
    /\ OrgDoc.name d = b
    /\ tenants w3 !! OrgDoc.collection_name d = None.
Proof.
  intros a b Hf Hbelow Hkeys Hslug Ha Hb.
  destruct (create_organization_runs now salt pa w Hf Ha)
    as (w1 & Hc1 & Ho1 & Hn1 & Hf1 & _).
  set (da := created_doc now salt pa (next_id w)) in *.
  assert (Hb1 : lookup_org b w1 = None).
  { unfold lookup_org in *. rewrite Ho1, (find_app_fresh _ _ _ Hb). cbn.
    fold a. apply String.eqb_neq in Hkeys. by rewrite Hkeys. }
  destruct (create_organization_runs now salt pb w1 Hf1 Hb1)
    as (w2 & Hc2 & Ho2 & Hn2 & Hf2 & _).
  set (db := created_doc now salt pb (next_id w1)) in *.
  assert (Ha2 : lookup_org a w2 = Some da).
  { unfold lookup_org in *. rewrite Ho2, Ho1, <- app_assoc.
    rewrite (find_app_none _ _ _ Ha). cbn. fold a.
    by rewrite String.eqb_refl. }
  destruct (delete_organization_runs a w2 da Ha2 Hf2)
    as (w3 & Hdel & Hgone & _ & Ho3 & _).
  exists (_serialize_org da), (_serialize_org db), w1, w2, w3, db.
  repeat split; try done.
  - unfold lookup_org in *. rewrite Ho3, Ho2, Ho1, <- app_assoc.
    change ([da] ++ [db])%list with (da :: [db]).
    rewrite (delete_first_fresh_middle (organizations w) [db] da).
    + rewrite (find_app_fresh _ _ _ Hb). cbn. fold b.
      by rewrite String.eqb_refl.
    + eapply Forall_impl; [exact Hbelow|]. cbn. lia.
  - cbn. fold b. rewrite <- Hslug. exact Hgone.
Qed.

End RoundTrips.

(* ===================================================================== *)
(** * Credentials across operations *)
(* ===================================================================== *)

Lemma find_app_some {A} (p : A -> bool) l l' x :
  List.find p l = Some x -> List.find p (l ++ l') = Some x.
Proof.
  induction l as [|y l IH]; cbn; [done|]. destruct (p y); [done|]. apply IH.
Qed.

Section Credentials.
Context `{Signer} `{PasswordHasher} (settings : Settings).

(** The claims [login] puts in the token of a record. *)
Lemma login_runs now_exp now_iat payload w d :
  faults w <> Some 0 ->
  lookup_admin (AdminLoginRequest.email payload) w = Some d ->
  verify_password (AdminLoginRequest.password payload) (OrgDoc.password_hash d)
  = true ->
  exists tr,
    login settings now_exp now_iat payload w
    = Returned tr
        (completed (FindOne (ByEmail (name_key (AdminLoginRequest.email payload)))) w)
    /\ TokenResponse.admin_email tr = OrgDoc.email d
    /\ TokenResponse.organization_name tr = OrgDoc.name d
    /\ TokenResponse.token_type tr = "bearer"
    /\ forall now,
         (now_iat <= now)%Z ->
         (now < now_exp + 60 * access_token_expire_minutes settings)%Z ->
         exists p,
           get_current_admin settings now (Some (TokenResponse.access_token tr))
           = inr p
           /\ JwtPayload.claims p !! "admin_email" = Some (OrgDoc.email d)
           /\ JwtPayload.claims p !! "organization_name" = Some (OrgDoc.name d).
Proof.
  intros Hf Hd Hpw. unfold lookup_admin in Hd. eexists. split.
  - unfold login, mbind, M_bind, bind.
    rewrite find_one_completes by done. rewrite Hd, Hpw. reflexivity.
  - cbn [TokenResponse.admin_email TokenResponse.organization_name
         TokenResponse.token_type TokenResponse.access_token].
    do 3 (split; [done|]). intros now Hiat Hexp. eexists.
    unfold get_current_admin. rewrite decode_fresh_token by done.
    cbn [JwtPayload.claims].
    rewrite lookup_insert_ne, lookup_insert_eq, lookup_insert_eq by done.
    rewrite !bool_decide_false by done. done.
Qed.

(** When the hasher accepts the passwords it hashed, an organization
    created under a free name and an unused email can log in right away
    with the email and password given, and the token the login returns
    passes the auth gate with the lowercased email and the name given as
    its claims. *)
Theorem create_then_login now salt payload now_exp now_iat now_auth w :
  hasher_round_trip ->
  faults w = None ->
  lookup_org (OrganizationCreate.organization_name payload) w = None ->
  lookup_admin (OrganizationCreate.email payload) w = None ->
  name_key (OrganizationCreate.email payload)
  = PyStr.lower (OrganizationCreate.email payload) ->
  (now_iat <= now_auth)%Z ->
  (now_auth < now_exp + 60 * access_token_expire_minutes settings)%Z ->
  exists r w1 tr w2 p,
    create_organization now salt payload w = Returned r w1
    /\ login settings now_exp now_iat
         {| AdminLoginRequest.email := OrganizationCreate.email payload;
            AdminLoginRequest.password := OrganizationCreate.password payload |}
         w1
       = Returned tr w2
    /\ TokenResponse.admin_email tr
       = PyStr.lower (OrganizationCreate.email payload)
    /\ TokenResponse.organization_name tr
       = OrganizationCreate.organization_name payload
    /\ get_current_admin settings now_auth
         (Some (TokenResponse.access_token tr)) = inr p
    /\ JwtPayload.claims p !! "admin_email"
       = Some (PyStr.lower (OrganizationCreate.email payload))
    /\ JwtPayload.claims p !! "organization_name"
       = Some (OrganizationCreate.organization_name payload).
Proof.
  intros Hrt Hf Hname Hemail Hnorm Hiat Hexp.
  destruct (create_organization_runs now salt payload w Hf Hname)
    as (w1 & Hc & Ho1 & _ & Hf1 & _).
  set (d := created_doc now salt payload (next_id w)) in *.
  destruct (login_runs now_exp now_iat
              {| AdminLoginRequest.email := OrganizationCreate.email payload;
                 AdminLoginRequest.password := OrganizationCreate.password payload |}
              w1 d)
    as (tr & Hl & He & Hn & _ & Hgate).
  - by rewrite Hf1.
  - unfold lookup_admin in *. cbn [AdminLoginRequest.email].
    rewrite Ho1, (find_app_fresh _ _ _ Hemail). cbn. rewrite Hnorm.
    by rewrite String.eqb_refl.
  - apply Hrt.
  - destruct (Hgate now_auth Hiat Hexp) as (p & Hp & Hpe & Hpn).
    exists (_serialize_org d), w1, tr. eexists. exists p.
    split; [done|]. split; [exact Hl|]. done.
Qed.

(** Emails are not checked when an organization is created.  When an
    earlier record already has the email, [login] keeps resolving the email
    to that record: the admin of the new organization is refused whenever
    the earlier record's hash does not accept the new password. *)
Theorem second_admin_with_same_email_is_shadowed
    now salt payload now_exp now_iat w d0 :
  faults w = None ->
  lookup_org (OrganizationCreate.organization_name payload) w = None ->
  lookup_admin (OrganizationCreate.email payload) w = Some d0 ->
  verify_password (OrganizationCreate.password payload)
    (OrgDoc.password_hash d0) = false ->
  exists r w1,
    create_organization now salt payload w = Returned r w1
    /\ lookup_admin (OrganizationCreate.email payload) w1 = Some d0
    /\ raised (login settings now_exp now_iat
                 {| AdminLoginRequest.email := OrganizationCreate.email payload;
                    AdminLoginRequest.password :=
                      OrganizationCreate.password payload |} w1)
       = Some (ValueError "Invalid credentials").
Proof.
  intros Hf Hname Hd0 Hpw.
  destruct (create_organization_runs now salt payload w Hf Hname)
    as (w1 & Hc & Ho1 & _ & Hf1 & _).
  assert (Hd1 : lookup_admin (OrganizationCreate.email payload) w1 = Some d0).
  { unfold lookup_admin in *. rewrite Ho1. by apply find_app_some. }
  eexists _, w1. split; [done|]. split; [done|].
  by apply (login_wrong_password settings _ _ _ _ d0); [rewrite Hf1|..].
Qed.

End Credentials.

(* ===================================================================== *)
(** * Updates followed by other calls *)
(* ===================================================================== *)



Section AfterUpdate.
Context `{Signer} `{PasswordHasher} (settings : Settings).



End AfterUpdate.

Section PasswordChange.
Context `{Signer} `{PasswordHasher} (settings : Settings).

(** X15.  Take a registry with unique ids in which no store call fails,
    a hasher that accepts the passwords it hashed, a record found under
    the current name that is also the record the login lookup finds under
    its own email (the email is stored in the form the lookup searches
    for, and no earlier record has it), and a request that gives a
    password and neither a name nor an email.  Then the password set by
    [update_organization] is the one [login] accepts right after: the
    record keeps its name and email, takes the clock as [updated_at], the
    tenant collections are as before, and the login under the record's
    email and the new password returns a token for the record's
    organization. *)
Theorem password_change_then_login
    now salt current_org_name payload password now_exp now_iat w d :
  hasher_round_trip ->
  faults w = None ->
  unique_ids w ->
  lookup_org current_org_name w = Some d ->
  lookup_admin (OrgDoc.email d) w = Some d ->
  given (OrganizationUpdate.organization_name payload) = None ->
  given (OrganizationUpdate.email payload) = None ->
  given (OrganizationUpdate.password payload) = Some password ->
  exists r w1 tr w2,
    update_organization now salt current_org_name payload w = Returned r w1
    /\ OrganizationResponse.organization_name r = OrgDoc.name d
    /\ OrganizationResponse.email r = OrgDoc.email d
    /\ OrganizationResponse.updated_at r = now
    /\ tenants w1 = tenants w
    /\ login settings now_exp now_iat
         {| AdminLoginRequest.email := OrgDoc.email d;
            AdminLoginRequest.password := password |} w1
       = Returned tr w2
    /\ TokenResponse.organization_name tr = OrgDoc.name d
    /\ TokenResponse.admin_email tr = OrgDoc.email d.
Proof.
  intros Hrt Hf Hids Hd Hadmin Hname Hemail Hpw.
  pose proof Hd as Hfind. unfold lookup_org in Hfind.
  set (u := Updates.stage_updated_at now
              (Updates.stage_password_hash (hash_password salt password)
                 Updates.empty)).
  set (w1 := completed (UpdateOne (OrgDoc._id d))
               (with_organizations
                  (update_first (matches (ById (OrgDoc._id d))) (Updates.set u)
                     (organizations w))
                  (completed (FindOne (ByNameLower (name_key current_org_name)))
                     w))).
  assert (Hup : update_organization now salt current_org_name payload w
                = Returned (_serialize_org (Updates.set u d)) w1).
  { unfold update_organization, mbind, M_bind, bind.
    rewrite find_one_completes by (by rewrite Hf). rewrite Hfind.
    rewrite stage_name_unchanged by (by rewrite Hname).
    rewrite Hemail, Hpw. cbn [Updates.nonempty Updates.staged Updates.name
      Updates.name_lower Updates.collection_name Updates.email
      Updates.password_hash Updates.updated_at Updates.stage_password_hash
      Updates.empty orb].
    unfold update_one. rewrite store_call_completes by (cbn; by rewrite Hf).
    reflexivity. }
  destruct (login_runs settings now_exp now_iat
              {| AdminLoginRequest.email := OrgDoc.email d;
                 AdminLoginRequest.password := password |}
              w1 (Updates.set u d))
    as (tr & Hl & He & Hn & _).
  - cbn. by rewrite Hf.
  - unfold lookup_admin in *. cbn [AdminLoginRequest.email organizations w1
      completed with_organizations].
    apply find_update_first; [done..|].
    apply find_some in Hadmin as [_ Hm]. exact Hm.
  - cbn. apply Hrt.
  - exists (_serialize_org (Updates.set u d)), w1, tr. eexists.
    split; [exact Hup|]. do 4 (split; [done|]). split; [exact Hl|]. done.
Qed.

End PasswordChange.

(* ===================================================================== *)
(** * The auth gate and the protected routes *)
(* ===================================================================== *)

Section Gate.
Context `{Signer} `{PasswordHasher} (settings : Settings).

Lemma get_current_admin_refusal now credentials e :
  get_current_admin settings now credentials = inl e -> status_code e = 401.
Proof.
  unfold get_current_admin. destruct credentials as [token|]; [|by intros [= <-]].
  destruct (decode_token settings now token) as [err|payload];
    [by intros [= <-]|].
  destruct (_ || _); [by intros [= <-]|done].
Qed.

(** The gate never lets a request through on anything but a well-formed
    token under the configured algorithm, signed with the configured key,
    not issued in the future, not expired, and carrying both claims; and
    every refusal of the gate is a 401. *)
Theorem get_current_admin_sound now credentials :
  match get_current_admin settings now credentials with
  | inr claims =>
      exists signature,
        credentials
        = Some (Jws (jwt_algorithm settings) claims signature)
        /\ signature
           = sign (jwt_algorithm settings) (secret_key settings) claims
        /\ (forall i, JwtPayload.iat claims = Some i -> (i <= now)%Z)
        /\ (forall e, JwtPayload.exp claims = Some e -> (now < e)%Z)
        /\ is_Some (JwtPayload.claims claims !! "admin_email")
        /\ is_Some (JwtPayload.claims claims !! "organization_name")
  | inl e => status_code e = 401
  end.
Proof.
  unfold get_current_admin, decode_token, jwt_decode.
  destruct credentials as [[raw|alg payload signature]|]; [done| |done].
  destruct (String.eqb_spec alg (jwt_algorithm settings)) as [->|]; [|done].
  cbn [negb].
  destruct (String.eqb_spec signature
              (sign (jwt_algorithm settings) (secret_key settings) payload))
    as [->|]; [|done]. cbn [negb].
  unfold validate_iat, validate_exp.
  destruct (JwtPayload.iat payload) as [i|] eqn:Hi;
    [destruct (Z.ltb_spec now i); [done|]|];
    (destruct (JwtPayload.exp payload) as [e|] eqn:He;
     [destruct (Z.leb_spec e now); [done|]|]).
  all: case_bool_decide as Hc1; [done|]; case_bool_decide as Hc2; [done|].
  all: cbn [orb]; eexists; split; [reflexivity|]; split; [done|].
  all: repeat split; try (by apply not_eq_None_Some).
  all: intros z Hz; rewrite ?Hi, ?He in Hz; try done.
  all: injection Hz as <-; lia.
Qed.

(** X17.  For a subject that sets none of the registered claims, two
    successive clock readings and an expiry that [datetime] holds, a token
    of [create_access_token] is accepted by [decode_token] exactly from the
    second of its issue up to, and not including, the second of its
    expiry, [access_token_expire_minutes] minutes after the first clock
    reading; with a lifetime of zero or less it is never accepted. *)
Theorem issued_token_window now_exp now_iat now subject :
  plain_subject subject ->
  in_datetime_range now_exp ->
  in_datetime_range now_iat ->
  in_datetime_range (now_exp + 60 * access_token_expire_minutes settings) ->
  (now_exp <= now_iat)%Z ->
  let token := create_access_token settings now_exp now_iat subject in
  (accepted (decode_token settings now token) = true
   <-> (now_iat <= now < now_exp + 60 * access_token_expire_minutes settings)%Z)
  /\ ((access_token_expire_minutes settings <= 0)%Z ->
      accepted (decode_token settings now token) = false).
Proof.
  intros _ _ _ _ Hclock token.
  assert (Hiff : accepted (decode_token settings now token) = true
    <-> (now_iat <= now < now_exp + 60 * access_token_expire_minutes settings)%Z).
  { unfold token, decode_token, create_access_token, jwt_encode, jwt_decode.
    rewrite !String.eqb_refl. unfold validate_iat, validate_exp. cbn.
    destruct (Z.ltb_spec now now_iat); [cbn; split; [done|lia]|].
    destruct (Z.leb_spec
                (now_exp + 60 * access_token_expire_minutes settings) now);
      cbn; split; try done; lia. }
  split; [exact Hiff|]. intros Hm.
  destruct (accepted _); [|done]. pose proof (proj1 Hiff eq_refl). lia.
Qed.

End Gate.

Section ProtectedRoutes.
Context `{Signer} `{PasswordHasher} (settings : Settings).

Lemma lookup_org_same_registry name w w' :
  organizations w' = organizations w -> lookup_org name w' = lookup_org name w.
Proof. unfold lookup_org. by intros ->. Qed.

Lemma lookup_org_by_key a b w :
  name_key a = name_key b -> lookup_org a w = lookup_org b w.
Proof. unfold lookup_org. by intros ->. Qed.

(** X18.  The protected routes serve the organization of the token and
    no other, whatever call fails; the update route is taken with a body
    the framework has accepted, the delete route from its raw query
    parameter on.  Without credentials the gate accepts, both routes answer
    with the gate's 401 and make no store call, whatever the query
    parameter.  With them, the update route changes at most the record
    found under the token's organization name; the delete route answers a
    missing query parameter, or one shorter than 3 or longer than 64
    characters, with 422 and no store call, answers a parameter of valid
    length whose key is not the key of the token's organization name with
    403 and no store call, and removes at most the record found under the
    token's organization name. *)
Theorem protected_routes_serve_own_organization
    now_auth now salt credentials payload query w :
  let upd := OrgRoutes.update_organization settings now_auth now salt
               credentials payload w in
  let del := OrgRoutes.delete_endpoint settings now_auth credentials
               query w in
  match get_current_admin settings now_auth credentials with
  | inl e =>
      upd = (HttpError e, w) /\ del = (HttpError e, w) /\ status_code e = 401
  | inr claims =>
      forall own,
        JwtPayload.claims claims !! "organization_name" = Some own ->
        (organizations upd.2 = organizations w
         \/ exists d u,
              lookup_org own w = Some d
              /\ organizations upd.2
                 = update_first (matches (ById (OrgDoc._id d))) (Updates.set u)
                     (organizations w))
        /\ (OrgRoutes.query_organization_name query = None ->
            del = (Unprocessable "organization_name", w))
        /\ (forall organization_name,
              query = Some organization_name ->
              valid_organization_name organization_name = true ->
              name_key organization_name <> name_key own ->
              del = (HttpError {| status_code := 403;
                                  detail := "You can only delete your own organization" |},
                     w))
        /\ (organizations del.2 = organizations w
            \/ exists d,
                 lookup_org own w = Some d
                 /\ organizations del.2
                    = delete_first (matches (ById (OrgDoc._id d)))
                        (organizations w))
  end.
Proof.
  intros upd del. subst upd del.
  unfold OrgRoutes.update_organization, OrgRoutes.delete_endpoint,
    OrgRoutes.delete_organization.
  pose proof (get_current_admin_refusal settings now_auth credentials) as Hs.
  destruct (get_current_admin settings now_auth credentials) as [e|claims];
    [by rewrite (Hs e eq_refl)|]. clear Hs.
  intros own Hown. rewrite Hown.
  split; [|split; [by intros ->|split;
    [intros organization_name -> Hv; cbn; rewrite Hv
    |destruct (OrgRoutes.query_organization_name query)
       as [organization_name|]; [|by left]]]].
  - destruct (update_organization_effect now salt own payload w)
      as [_ [Ho|(d & u & Hd & Ho & _)]].
    + left. destruct (update_organization now salt own payload w)
        as [r w'|[] w']; exact Ho.
    + right. exists d, u. split; [done|].
      destruct (update_organization now salt own payload w)
        as [r w'|[] w']; exact Ho.
  - intros Hne. apply String.eqb_neq in Hne. by rewrite Hne.
  - destruct (String.eqb_spec (name_key organization_name) (name_key own))
      as [Hk|_]; [|by left]. cbn [negb].
    unfold get_organization, mbind, M_bind, bind.
    destruct (keeps_registry_find_one
                (ByNameLower (name_key organization_name)) w) as [Ho1 _].
    destruct (find_one _ w) as [org w1|[] w1]; cbn [final] in Ho1;
      try (by left).
    unfold mret, M_ret, ret. destruct (_serialize_org <$> org); [|by left].
    destruct (delete_organization_effect organization_name w1)
      as [_ [Ho|(d & Hd & Ho)]].
    + left. rewrite <- Ho1.
      destruct (delete_organization organization_name w1)
        as [r w'|[] w']; exact Ho.
    + right. exists d. rewrite <- Ho1. split.
      * rewrite <- (lookup_org_by_key organization_name own) by done.
        by rewrite <- (lookup_org_same_registry organization_name w w1).
      * destruct (delete_organization organization_name w1)
          as [r w'|[] w']; exact Ho.
Qed.

End ProtectedRoutes.

(* ===================================================================== *)
(** * The connection manager *)
(* ===================================================================== *)

Section ConnectionManager.
Import MongoConnectionManager.

Lemma filter_seq_none (p : nat -> bool) n :
  (forall c, c < n -> p c = false) -> List.filter p (seq 0 n) = [].
Proof.
  induction n as [|n IH]; [done|]. intros Hp.
  rewrite seq_S, List.filter_app, IH by (intros c Hc; apply Hp; lia).
  cbn. by rewrite Hp by lia.
Qed.

Lemma filter_seq_one (p : nat -> bool) n c :
  c < n -> p c = true -> (forall c', c' < n -> c' <> c -> p c' = false) ->
  List.filter p (seq 0 n) = [c].
Proof.
  induction n as [|n IH]; [lia|]. intros Hc Hpc Hp.
  rewrite seq_S, List.filter_app. cbn.
  destruct (decide (c = n)) as [->|Hne].
  - rewrite Hpc, filter_seq_none; [done|]. intros c' Hc'. apply Hp; lia.
  - rewrite (Hp n) by lia. rewrite IH; [done|lia|done|].
    intros c' Hc' Hne'. apply Hp; [lia|done].
Qed.

Lemma is_closed_spec c l :
  existsb (Nat.eqb c) l = true <-> In c l.
Proof.
  rewrite existsb_exists. split.
  - by intros (x & Hin & ->%Nat.eqb_eq).
  - intros Hin. exists c. by rewrite Nat.eqb_refl.
Qed.

(** The state of a manager: closed clients were constructed, the client
    held was constructed and is not closed, and every constructed client
    is closed or held. *)
Lemma manager_state settings ops :
  let m := run settings ops in
  (forall c, In c (closed m) -> c < constructed m)
  /\ (forall c, _client m = Some c -> c < constructed m /\ ~ In c (closed m))
  /\ (forall c, c < constructed m -> In c (closed m) \/ _client m = Some c).
Proof.
  unfold run. induction ops as [|o ops IH] using rev_ind; [cbn; repeat split; try done; lia|].
  rewrite fold_left_app. cbn [fold_left].
  destruct IH as (Ha & Hb & Hc). set (m := fold_left _ ops init) in *.
  assert (Hget : let m' := (get_client m).2 in
    (forall c, In c (closed m') -> c < constructed m')
    /\ (forall c, _client m' = Some c -> c < constructed m' /\ ~ In c (closed m'))
    /\ (forall c, c < constructed m' -> In c (closed m') \/ _client m' = Some c)).
  { unfold get_client. destruct (_client m) as [c0|] eqn:E; cbn.
    - rewrite E. done.
    - split; [|split].
      + intros c Hin. specialize (Ha c Hin). lia.
      + intros c [= <-]. split; [lia|]. intros Hin. specialize (Ha _ Hin). lia.
      + intros c Hlt. destruct (decide (c = constructed m)) as [->|Hne];
          [by right|]. left. by destruct (Hc c) as [|[=]]; [lia|..]. }
  destruct o; cbn [step].
  - exact Hget.
  - unfold get_master_db. by destruct (get_client m).
  - unfold close. destruct (_client m) as [c0|] eqn:E; cbn; [|by rewrite E].
    destruct (Hb c0 eq_refl) as [Hlt Hnot]. split; [|split].
    + intros c [<-|Hin]; [done|by apply Ha].
    + done.
    + intros c Hc'. destruct (Hc c Hc') as [|[= ->]]; left; [by right|by left].
Qed.

(** However a process uses its manager, the clients constructed and not
    closed are exactly the one the manager holds, if it holds one: at most
    one client is open at a time.  After [get_client] the client returned
    is the one open, and after [close] none is. *)
Theorem at_most_one_client_open settings ops :
  let m := run settings ops in
  open_clients m = match _client m with Some c => [c] | None => [] end
  /\ open_clients (get_client m).2 = [(get_client m).1]
  /\ open_clients (close m) = [].
Proof.
  assert (Hopen : forall ops',
    let m := run settings ops' in
    open_clients m = match _client m with Some c => [c] | None => [] end).
  { intros ops'. destruct (manager_state settings ops') as (Ha & Hb & Hc).
    cbv zeta in *. set (m := run settings ops') in *. unfold open_clients.
    destruct (_client m) as [c|] eqn:E.
    - destruct (Hb c eq_refl) as [Hlt Hnot]. apply filter_seq_one; [done| |].
      + apply negb_true_iff, not_true_iff_false. by rewrite is_closed_spec.
      + intros c' Hc' Hne. apply negb_false_iff, is_closed_spec.
        destruct (Hc c' Hc') as [|[= ->]]; done.
    - apply filter_seq_none. intros c Hc'.
      apply negb_false_iff, is_closed_spec. by destruct (Hc c Hc'). }
  intros m. split; [apply Hopen|]. split.
  - pose proof (Hopen (ops ++ [GetClient])%list) as Hg. cbv zeta in Hg.
    unfold run in Hg. rewrite fold_left_app in Hg. cbn [fold_left step] in Hg.
    fold (run settings ops) in Hg. fold m in Hg. rewrite Hg.
    unfold get_client. by destruct (_client m) as [c|] eqn:E; cbn; rewrite ?E.
  - pose proof (Hopen (ops ++ [Close])%list) as Hg. cbv zeta in Hg.
    unfold run in Hg. rewrite fold_left_app in Hg. cbn [fold_left step] in Hg.
    fold (run settings ops) in Hg. fold m in Hg. rewrite Hg.
    unfold close. by destruct (_client m) as [c|] eqn:E; cbn; rewrite ?E.
Qed.

End ConnectionManager.

(* ===================================================================== *)
(** * The further properties on concrete runs *)
(* ===================================================================== *)

Lemma collection_name_length_witness :
  5 <= String.length (build_org_collection_name "Acme, Inc.") <= 68.
Proof. apply (proj2 (collection_name_length "Acme, Inc.")). reflexivity. Defined.

Lemma demo_world_registry_ok : registry_ok demo_world.
Proof.
  split; [exact demo_world_unique_ids|].
  split; [exact demo_world_unique_names|]. split.
  - repeat constructor; cbn; lia.
  - repeat constructor.
Defined.

Lemma demo_world_ids_below_next : ids_below_next demo_world.
Proof. repeat constructor; cbn; lia. Defined.

Lemma create_organization_keeps_registry_ok_witness :
  registry_ok
    (final (create_organization (H := demo_hasher) 5 "salt"
              (demo_create "Acme" "ann@acme.io") demo_world)).
Proof.
  apply (create_organization_keeps_registry_ok (H := demo_hasher)).
  exact demo_world_registry_ok.
Defined.

Lemma update_organization_keeps_registry_ok_witness :
  let w := with_faults (Some 4) demo_world in
  let w' := final (update_organization (H := demo_hasher) 5 "salt" "foo"
                     (demo_update (Some "Baz") None None) w) in
  registry_ok w' /\ next_id w' = next_id w
  /\ lookup_org "Baz" w' <> None /\ lookup_org "foo" w' = None.
Proof.
  intros w w'.
  destruct (update_organization_keeps_registry_ok (H := demo_hasher) 5 "salt"
              "foo" (demo_update (Some "Baz") None None) w
              demo_world_registry_ok) as (Hok & Hn & _).
  split; [exact Hok|]. split; [exact Hn|].
  split; [vm_compute; discriminate|vm_compute; reflexivity].
Defined.

Lemma delete_organization_keeps_registry_ok_witness :
  registry_ok (final (delete_organization "foo" demo_world)).
Proof.
  apply delete_organization_keeps_registry_ok. exact demo_world_registry_ok.
Defined.

Lemma reachable_registry_ok_witness :
  registry_ok
    (final (update_organization (H := demo_hasher) 7 "salt" "Acme"
              (demo_update (Some "Acme Two") None None)
              (final (create_organization (H := demo_hasher) 5 "salt"
                        (demo_create "Acme" "ann@acme.io")
                        {| organizations := []; tenants := ∅; next_id := 0;
                           log := []; faults := None |})))).
Proof.
  apply (reachable_registry_ok (H := demo_hasher)).
  apply reach_update, reach_create, reach_fresh.
Defined.

Lemma create_then_delete_witness :
  exists r w1 w2,
    create_organization (H := demo_hasher) 5 "salt"
      (demo_create "Acme" "ann@acme.io") demo_world = Returned r w1
    /\ delete_organization "Acme" w1 = Returned true w2
    /\ organizations w2 = organizations demo_world
    /\ tenants w2 !! "org_acme" = None.
Proof.
  destruct (create_then_delete (H := demo_hasher) 5 "salt"
              (demo_create "Acme" "ann@acme.io") demo_world
              eq_refl demo_world_ids_below_next eq_refl)
    as (r & w1 & w2 & Hc & Hd & Ho & _ & Ht & _).
  exists r, w1, w2. repeat split; assumption.
Defined.

Lemma delete_then_get_witness :
  exists w1 w2,
    delete_organization "foo" demo_world = Returned true w1
    /\ get_organization " FOO " w1 = Returned None w2
    /\ tenants w2 !! "org_foo" = None.
Proof.
  destruct (delete_then_get "foo" demo_world (demo_org 1 "foo" "ann@foo.io")
              eq_refl demo_world_unique_ids demo_world_unique_names eq_refl)
    as (w1 & w2 & Hd & Hg & _ & Ht).
  exists w1, w2. repeat split; assumption.
Defined.

Lemma names_with_one_slug_share_collection_witness :
  exists ra rb w1 w2 w3 d,
    create_organization (H := demo_hasher) 5 "salt"
      (demo_create "my org" "ann@my.org") demo_world = Returned ra w1
    /\ create_organization (H := demo_hasher) 5 "salt"
         (demo_create "my-org" "bob@my.org") w1 = Returned rb w2
    /\ OrganizationResponse.collection_name ra
       = OrganizationResponse.collection_name rb
    /\ delete_organization "my org" w2 = Returned true w3
    /\ lookup_org "my-org" w3 = Some d
    /\ OrgDoc.name d = "my-org"
    /\ tenants w3 !! OrgDoc.collection_name d = None.
Proof.
  apply (names_with_one_slug_share_collection (H := demo_hasher) 5 "salt"
           (demo_create "my org" "ann@my.org")
           (demo_create "my-org" "bob@my.org") demo_world).
  - reflexivity.
  - exact demo_world_ids_below_next.
  - discriminate.
  - reflexivity.
  - reflexivity.
  - reflexivity.
Defined.

Lemma substring_whole b : String.substring 0 (String.length b) b = b.
Proof. induction b as [|c b IH]; cbn; [done|]. by rewrite IH. Qed.

Lemma substring_suffix a b :
  String.substring (String.length a) (String.length b) (a +:+ b) = b.
Proof. induction a as [|c a IH]; cbn; [apply substring_whole|exact IH]. Qed.

Lemma length_app a b :
  String.length (a +:+ b) = String.length a + String.length b.
Proof.
  induction a as [|c a IH]; [done|].
  change (String c a +:+ b) with (String c (a +:+ b)). cbn. by rewrite IH.
Qed.

Lemma append_assoc a b c : (a +:+ b) +:+ c = a +:+ (b +:+ c).
Proof.
  induction a as [|x a IH]; [done|].
  change (String x a +:+ b) with (String x (a +:+ b)).
  change (String x (a +:+ b) +:+ c) with (String x ((a +:+ b) +:+ c)).
  by rewrite IH.
Qed.

Lemma demo_hasher_round_trip : hasher_round_trip (H := demo_hasher).
Proof.
  intros salt password. cbn. rewrite <- append_assoc.
  rewrite length_app, Nat.add_sub, substring_suffix. apply String.eqb_refl.
Qed.

Lemma create_then_login_witness :
  exists r w1 tr w2 p,
    create_organization (H := demo_hasher) 5 "salt"
      (demo_create "Acme" "Ann@acme.io") demo_world = Returned r w1
    /\ login (H := demo_signer) (H0 := demo_hasher) demo_settings 1000 1001
         (demo_login "Ann@acme.io" "password1") w1 = Returned tr w2
    /\ get_current_admin (H := demo_signer) demo_settings 4599
         (Some (TokenResponse.access_token tr)) = inr p
    /\ JwtPayload.claims p !! "admin_email" = Some "ann@acme.io"
    /\ JwtPayload.claims p !! "organization_name" = Some "Acme".
Proof.
  destruct (create_then_login (H := demo_signer) (H0 := demo_hasher)
              demo_settings 5 "salt" (demo_create "Acme" "Ann@acme.io")
              1000 1001 4599 demo_world
              demo_hasher_round_trip eq_refl eq_refl eq_refl eq_refl)
    as (r & w1 & tr & w2 & p & Hc & Hl & _ & _ & Hg & He & Hn).
  - discriminate.
  - reflexivity.
  - exists r, w1, tr, w2, p. repeat split; assumption.
Defined.

Lemma second_admin_with_same_email_is_shadowed_witness :
  exists r w1,
    create_organization (H := demo_hasher) 5 "salt"
      {| OrganizationCreate.organization_name := "Foo Two";
         OrganizationCreate.email := "ann@foo.io";
         OrganizationCreate.password := "password9" |} demo_world
    = Returned r w1
    /\ lookup_org "Foo Two" w1
       = Some (created_doc (H := demo_hasher) 5 "salt"
                 {| OrganizationCreate.organization_name := "Foo Two";
                    OrganizationCreate.email := "ann@foo.io";
                    OrganizationCreate.password := "password9" |} 3)
    /\ raised (login (H := demo_signer) (H0 := demo_hasher) demo_settings
                 1000 1001 (demo_login "ann@foo.io" "password9") w1)
       = Some (ValueError "Invalid credentials").
Proof.
  destruct (second_admin_with_same_email_is_shadowed (H := demo_signer)
              (H0 := demo_hasher) demo_settings 5 "salt"
              {| OrganizationCreate.organization_name := "Foo Two";
                 OrganizationCreate.email := "ann@foo.io";
                 OrganizationCreate.password := "password9" |}
              1000 1001 demo_world (demo_org 1 "foo" "ann@foo.io")
              eq_refl eq_refl eq_refl eq_refl)
    as (r & w1 & Hc & _ & Hl).
  exists r, w1. split; [exact Hc|]. split; [|exact Hl].
  vm_compute in Hc. injection Hc as _ <-. vm_compute. reflexivity.
Defined.


Lemma password_change_then_login_witness :
  exists r w1 tr w2,
    update_organization (H := demo_hasher) 9 "pepper" "foo"
      (demo_update None None (Some "password2")) demo_world = Returned r w1
    /\ OrganizationResponse.updated_at r = 9%Z
    /\ login (H := demo_signer) (H0 := demo_hasher) demo_settings 1000 1001
         (demo_login "ann@foo.io" "password2") w1 = Returned tr w2
    /\ TokenResponse.organization_name tr = "foo".
Proof.
  destruct (password_change_then_login (H := demo_signer) (H0 := demo_hasher)
              demo_settings 9 "pepper" "foo"
              (demo_update None None (Some "password2")) "password2"
              1000 1001 demo_world (demo_org 1 "foo" "ann@foo.io")
              demo_hasher_round_trip eq_refl demo_world_unique_ids
              eq_refl eq_refl eq_refl eq_refl eq_refl)
    as (r & w1 & tr & w2 & Hu & _ & _ & Hat & _ & Hl & Hn & _).
  exists r, w1, tr, w2. repeat split; assumption.
Defined.

Lemma issued_token_window_witness :
  accepted
    (decode_token (H := demo_signer) demo_settings 4599
       (create_access_token (H := demo_signer) demo_settings 1000 1001 ∅))
  = true
  /\ accepted
       (decode_token (H := demo_signer) demo_settings 4600
          (create_access_token (H := demo_signer) demo_settings 1000 1001 ∅))
     = false.
Proof.
  assert (Hsubject : plain_subject ∅) by (repeat constructor).
  assert (Hrange : forall t, (1000 <= t <= 4600)%Z -> in_datetime_range t).
  { intros t Ht. unfold in_datetime_range, datetime_min, datetime_max. lia. }
  split.
  - apply (proj1 (issued_token_window (H := demo_signer) demo_settings
                    1000 1001 4599 ∅ Hsubject
                    (Hrange 1000%Z ltac:(lia)) (Hrange 1001%Z ltac:(lia))
                    (Hrange 4600%Z ltac:(lia)) ltac:(discriminate))).
    split; discriminate || reflexivity.
  - reflexivity.
Defined.

(* ===================================================================== *)
(** * The routes end to end *)
(* ===================================================================== *)

Section RoutesEndToEnd.
Context `{Signer} `{PasswordHasher} (settings : Settings).

Lemma get_endpoint_valid organization_name w :
  valid_organization_name organization_name = true ->
  OrgRoutes.get_endpoint (Some organization_name) w
  = OrgRoutes.get_organization organization_name w.
Proof.
  intros Hv. unfold OrgRoutes.get_endpoint. cbn. by rewrite Hv.
Qed.

(** X20.  With no failing call and a body the framework has accepted (a
    name of 3 to 64 characters, a password of 8 to 128), the create route
    answers a free name with 201 and the record under that name; the get route then answers that name, in any case and with any
    white space around it that leaves 3 to 64 characters, with 200 and a
    body with the same id, organization name, email and collection name;
    before the creation it answers the name with 404.  A name whose key is
    taken gets 400 "Organization already exists" from the create route and
    the data is left as it was.  The get route answers a missing query
    parameter, or one shorter than 3 or longer than 64 characters, with
    422 and no store call. *)
Theorem create_route_then_get_route now salt payload w :
  faults w = None ->
  valid_organization_name (OrganizationCreate.organization_name payload)
  = true ->
  valid_password (OrganizationCreate.password payload) = true ->
  let name := OrganizationCreate.organization_name payload in
  (lookup_org name w = None ->
   exists r w1,
     OrgRoutes.create_organization now salt payload w = (Ok 201 r, w1)
     /\ OrganizationResponse.organization_name r = name
     /\ (forall name',
           valid_organization_name name' = true ->
           name_key name' = name_key name ->
           exists r' w2,
             OrgRoutes.get_endpoint (Some name') w1 = (Ok 200 r', w2)
             /\ OrganizationResponse.id r' = OrganizationResponse.id r
             /\ OrganizationResponse.organization_name r'
                = OrganizationResponse.organization_name r
             /\ OrganizationResponse.email r' = OrganizationResponse.email r
             /\ OrganizationResponse.collection_name r'
                = OrganizationResponse.collection_name r)
     /\ (OrgRoutes.get_endpoint (Some name) w).1
        = HttpError {| status_code := 404; detail := "Organization not found" |})
  /\ (forall d, lookup_org name w = Some d ->
        exists w1,
          OrgRoutes.create_organization now salt payload w
          = (HttpError {| status_code := 400;
                          detail := "Organization already exists" |}, w1)
          /\ same_data w w1)
  /\ (forall query,
        OrgRoutes.query_organization_name query = None ->
        OrgRoutes.get_endpoint query w = (Unprocessable "organization_name", w)).
Proof.
  intros Hf Hvalid _ name. split; [|split].
  - intros Hfresh.
    destruct (create_organization_runs now salt payload w Hf Hfresh)
      as (w1 & Hc & Ho1 & _ & Hf1 & _).
    set (doc := created_doc now salt payload (next_id w)) in *.
    exists (_serialize_org doc), w1. split; [|split; [|split]].
    + unfold OrgRoutes.create_organization. by rewrite Hc.
    + reflexivity.
    + intros name' Hv Hk. exists (_serialize_org doc). eexists.
      split; [|done]. rewrite (get_endpoint_valid _ _ Hv).
      unfold OrgRoutes.get_organization, get_organization, mbind, M_bind, bind.
      rewrite find_one_completes by (by rewrite Hf1).
      unfold lookup_org in Hfresh. rewrite Hk, Ho1.
      rewrite (find_app_fresh _ _ _ Hfresh). cbn [matches doc created_doc
        OrgDoc.name_lower]. rewrite String.eqb_refl. reflexivity.
    + rewrite (get_endpoint_valid _ _ Hvalid).
      unfold OrgRoutes.get_organization, get_organization, mbind, M_bind, bind.
      rewrite find_one_completes by (by rewrite Hf).
      unfold lookup_org, name in Hfresh. by rewrite Hfresh.
  - intros d Hd. eexists. split.
    + unfold OrgRoutes.create_organization, create_organization, mbind, M_bind,
        bind. rewrite find_one_completes by (by rewrite Hf).
      unfold lookup_org, name in Hd. rewrite Hd. reflexivity.
    + done.
  - intros query Hq. unfold OrgRoutes.get_endpoint. by rewrite Hq.
Qed.

(** X21.  With a token of the organization and a query parameter of 3 to
    64 characters whose key is the key of the token's organization name,
    the delete route removes the organization when no call fails: in a
    registry with unique ids and keys it answers 204, the name is no
    longer found, the get route then answers the same query parameter with
    404, and the tenant collection of the record is gone. *)
Theorem delete_route_then_get_route
    now_auth credentials claims own organization_name w d :
  get_current_admin settings now_auth credentials = inr claims ->
  JwtPayload.claims claims !! "organization_name" = Some own ->
  valid_organization_name organization_name = true ->
  name_key organization_name = name_key own ->
  faults w = None ->
  unique_ids w -> unique_names w ->
  lookup_org organization_name w = Some d ->
  exists w1 w2,
    OrgRoutes.delete_endpoint settings now_auth credentials
      (Some organization_name) w = (Ok 204 tt, w1)
    /\ OrgRoutes.get_endpoint (Some organization_name) w1
       = (HttpError {| status_code := 404; detail := "Organization not found" |},
          w2)
    /\ lookup_org organization_name w1 = None
    /\ tenants w1 !! OrgDoc.collection_name d = None
    /\ organizations w1
       = delete_first (matches (ById (OrgDoc._id d))) (organizations w).
Proof.
  intros Hg Hown Hv Hk Hf Hids Hnames Hd.
  set (w0 := completed (FindOne (ByNameLower (name_key organization_name))) w).
  assert (Hf0 : faults w0 = None) by (cbn; by rewrite Hf).
  assert (Hd0 : lookup_org organization_name w0 = Some d) by exact Hd.
  destruct (delete_organization_runs organization_name w0 d Hd0 Hf0)
    as (w1 & Hdel & Hgone & _ & Ho1 & _).
  pose proof (keeps_no_faults_delete organization_name w0 Hf0) as Hf1.
  rewrite Hdel in Hf1. cbn [final] in Hf1.
  assert (Hnone : lookup_org organization_name w1 = None).
  { unfold lookup_org. rewrite Ho1. unfold lookup_org in Hd.
    cbn [organizations w0 completed].
    by rewrite (find_delete_first_unique _ _ d Hids Hnames Hd). }
  exists w1. eexists. split; [|split; [|split; [|split]]].
  - unfold OrgRoutes.delete_endpoint. rewrite Hg. cbn. rewrite Hv.
    unfold OrgRoutes.delete_organization. rewrite Hg, Hown, Hk.
    rewrite String.eqb_refl. cbn [negb].
    unfold get_organization, mbind, M_bind, bind.
    rewrite find_one_completes by (by rewrite Hf).
    unfold lookup_org in Hd. rewrite Hd. cbn [fmap option_fmap option_map].
    unfold mret, M_ret, ret. fold w0. by rewrite Hdel.
  - rewrite (get_endpoint_valid _ _ Hv).
    unfold OrgRoutes.get_organization, get_organization, mbind, M_bind, bind.
    rewrite find_one_completes by (by rewrite Hf1).
    unfold lookup_org in Hnone. rewrite Hnone. reflexivity.
  - exact Hnone.
  - exact Hgone.
  - exact Ho1.
Qed.

End RoutesEndToEnd.

Lemma create_route_then_get_route_witness :
  (exists r w1 r' w2,
     OrgRoutes.create_organization (H0 := demo_hasher) 5 "salt"
       (demo_create "Acme" "ann@acme.io") demo_world = (Ok 201 r, w1)
     /\ OrgRoutes.get_endpoint (Some " ACME ") w1 = (Ok 200 r', w2)
     /\ OrganizationResponse.id r' = OrganizationResponse.id r
     /\ OrganizationResponse.organization_name r' = "Acme")
  /\ OrgRoutes.get_endpoint (Some "ab") demo_world
     = (Unprocessable "organization_name", demo_world).
Proof.
  pose proof (create_route_then_get_route (H0 := demo_hasher) 5 "salt"
                (demo_create "Acme" "ann@acme.io") demo_world eq_refl eq_refl
                eq_refl)
    as (Hfree & _ & Hquery).
  split.
  - destruct (Hfree eq_refl) as (r & w1 & Hc & Hn & Hget & _).
    destruct (Hget " ACME " eq_refl eq_refl) as (r' & w2 & Hg & Hid & Hn' & _).
    exists r, w1, r', w2. split; [exact Hc|]. split; [exact Hg|].
    split; [exact Hid|]. rewrite Hn'. exact Hn.
  - apply (Hquery (Some "ab")). reflexivity.
Defined.

Lemma delete_route_then_get_route_witness :
  let token :=
    create_access_token (H := demo_signer) demo_settings 1000 1000
      (<["organization_name" := "foo"]> (<["admin_email" := "ann@foo.io"]> ∅)) in
  exists w1 w2,
    OrgRoutes.delete_endpoint (H := demo_signer) demo_settings 1500
      (Some token) (Some " Foo ") demo_world = (Ok 204 tt, w1)
    /\ OrgRoutes.get_endpoint (Some " Foo ") w1
       = (HttpError {| status_code := 404; detail := "Organization not found" |},
          w2)
    /\ lookup_org "foo" w1 = None
    /\ tenants w1 !! "org_foo" = None.
Proof.
  intros token.
  destruct (delete_route_then_get_route (H := demo_signer) demo_settings 1500
              (Some token)
              {| JwtPayload.exp := Some 4600%Z; JwtPayload.iat := Some 1000%Z;
                 JwtPayload.claims :=
                   <["organization_name" := "foo"]>
                     (<["admin_email" := "ann@foo.io"]> ∅) |}
              "foo" " Foo " demo_world (demo_org 1 "foo" "ann@foo.io")
              eq_refl eq_refl eq_refl eq_refl eq_refl
              demo_world_unique_ids demo_world_unique_names eq_refl)
    as (w1 & w2 & Hd & Hg & Hn & Ht & _).
  exists w1, w2. repeat split; assumption.
Defined.

(** A token of "foo": the delete route refuses the two-character name "ab"
    with 422 and the name "Bar Ltd" with 403, both without a store call,
    and a request without credentials with 401. *)
Lemma protected_routes_serve_own_organization_witness :
  let token :=
    create_access_token (H := demo_signer) demo_settings 1000 1000
      (<["organization_name" := "foo"]> (<["admin_email" := "ann@foo.io"]> ∅)) in
  OrgRoutes.delete_endpoint (H := demo_signer) demo_settings 1500
    (Some token) (Some "ab") demo_world
  = (Unprocessable "organization_name", demo_world)
  /\ OrgRoutes.delete_endpoint (H := demo_signer) demo_settings 1500
       (Some token) (Some "Bar Ltd") demo_world
     = (HttpError {| status_code := 403;
                     detail := "You can only delete your own organization" |},
        demo_world)
  /\ OrgRoutes.delete_endpoint (H := demo_signer) demo_settings 1500
       None (Some "foo") demo_world
     = (HttpError {| status_code := 401;
                     detail := "Missing authorization header" |},
        demo_world).
Proof.
  intros token. split; [|split].
  - pose proof (protected_routes_serve_own_organization (H := demo_signer)
                  (H0 := demo_hasher) demo_settings 1500 5 "salt" (Some token)
                  (demo_update None None None) (Some "ab") demo_world) as Hp.
    destruct (Hp "foo" eq_refl) as (_ & H422 & _).
    exact (H422 eq_refl).
  - pose proof (protected_routes_serve_own_organization (H := demo_signer)
                  (H0 := demo_hasher) demo_settings 1500 5 "salt" (Some token)
                  (demo_update None None None) (Some "Bar Ltd") demo_world)
      as Hp.
    destruct (Hp "foo" eq_refl) as (_ & _ & H403 & _).
    apply (H403 "Bar Ltd" eq_refl eq_refl). discriminate.
  - pose proof (protected_routes_serve_own_organization (H := demo_signer)
                  (H0 := demo_hasher) demo_settings 1500 5 "salt" None
                  (demo_update None None None) (Some "foo") demo_world) as Hp.
    exact (proj1 (proj2 Hp)).
Defined.
